(** * WWMI Tools: the mod.ini checksum stamp and the group layout of IniMaker

    A shallow embedding of [blender_export/ini_maker.py]:
    - [is_ini_edited], the edit detection run before a mod.ini is overwritten;
    - [IniMaker.with_checksum] and [IniMaker.build], the signing of the
      rendered document;
    - [IniMaker.__post_init__] with its [make_*_group] methods, as far as
      they register groups, headers, footers and sections.

    Python values are embedded as follows.
    - A [str] is the list of its Unicode code points (integers).
    - [bytes] are lists of integers in 0..255.
    - An exception is a value of [exn]; a call that may raise returns a
      [result].
    - The file system is a finite map from paths to the text a file holds,
      that is, to what reading the file in text mode returns; [TextMode]
      gives that text for a text written in text mode. *)

From Stdlib Require Import ZArith Lia.
From Stdlib Require Import Strings.String Strings.Ascii DecimalString.
From Stdlib Require DecimalFacts DecimalNat.
From stdpp Require Import gmap strings list sorting.

Local Open Scope Z_scope.

(** ** Python strings *)

Module Py.

Definition char := Z.
Definition str := list char.
Definition bytes := list Z.

Inductive exn :=
| IndexError
| UnicodeEncodeError
| FileNotFoundError.

Inductive result (A : Type) :=
| Ok (a : A)
| Raise (e : exn).
Arguments Ok {A} a.
Arguments Raise {A} e.

(** A literal of the source, character by character. *)
Definition lit (s : string) : str :=
  map (fun a => Z.of_N (N_of_ascii a)) (list_ascii_of_string s).

(** [str.isspace] for one character: the characters CPython classifies as
    white space. [str.strip()] without argument removes exactly these. *)
Definition isspace (c : char) : bool :=
  ((9 <=? c) && (c <=? 13)) || ((28 <=? c) && (c <=? 32))
  || (c =? 0x85) || (c =? 0xA0) || (c =? 0x1680)
  || ((0x2000 <=? c) && (c <=? 0x200A))
  || (c =? 0x2028) || (c =? 0x2029) || (c =? 0x202F)
  || (c =? 0x205F) || (c =? 0x3000).

Fixpoint lstrip (s : str) : str :=
  match s with
  | [] => []
  | c :: s' => if isspace c then lstrip s' else s
  end.

Definition rstrip (s : str) : str := rev (lstrip (rev s)).

(** [s.strip()] *)
Definition strip (s : str) : str := rstrip (lstrip s).

(** [s.startswith(p)] *)
Fixpoint startswith (s p : str) {struct p} : bool :=
  match p, s with
  | [], _ => true
  | _ :: _, [] => false
  | a :: p', c :: s' => (c =? a) && startswith s' p'
  end.

(** [s.replace(old, new)]: every occurrence of [old], found from left to
    right without overlap, is replaced. [skip] counts the characters of an
    occurrence that are still to be passed over. *)
Fixpoint replace_from (old new : str) (skip : nat) (s : str) : str :=
  match s with
  | [] => []
  | c :: s' =>
      match skip with
      | S k => replace_from old new k s'
      | O =>
          if startswith s old
          then new ++ replace_from old new (length old - 1) s'
          else c :: replace_from old new O s'
      end
  end.

Definition replace (s old new : str) : str :=
  match old with
  | [] => new ++ concat (map (fun c => c :: new) s)
  | _ :: _ => replace_from old new O s
  end.

(** [a == b] on strings *)
Fixpoint str_eqb (a b : str) : bool :=
  match a, b with
  | [], [] => true
  | x :: a', y :: b' => (x =? y) && str_eqb a' b'
  | _, _ => false
  end.

(** [''.join(xs)] *)
Definition join (xs : list str) : str := concat xs.

(** [xs[-1]]: raises IndexError on the empty list. *)
Definition last_item {A} (xs : list A) : result A :=
  match last xs with
  | Some x => Ok x
  | None => Raise IndexError
  end.

(** [xs[:-1]] *)
Definition but_last {A} (xs : list A) : list A := removelast xs.

(** The lines of a text as iterating over a text-mode file yields them: a
    line ends after each newline and keeps it; a last line without newline
    is a line too. *)
Fixpoint lines (s : str) : list str :=
  match s with
  | [] => []
  | c :: s' =>
      if c =? 10 then [c] :: lines s'
      else match lines s' with
           | [] => [[c]]
           | l :: ls => (c :: l) :: ls
           end
  end.

(** A text that is empty or ends with a newline: a text made of whole
    lines. *)
Definition newline_terminated (t : str) : Prop := t = [] \/ last t = Some 10.

(** [s.encode('utf-8')]: a lone surrogate (and anything that is no code
    point) cannot be encoded. *)
Definition encode_char (c : char) : option bytes :=
  if c <? 0 then None
  else if c <? 0x80 then Some [c]
  else if c <? 0x800 then
    Some [Z.lor 0xC0 (Z.shiftr c 6); Z.lor 0x80 (Z.land c 0x3F)]
  else if c <? 0x10000 then
    if (0xD800 <=? c) && (c <=? 0xDFFF) then None
    else Some [Z.lor 0xE0 (Z.shiftr c 12);
               Z.lor 0x80 (Z.land (Z.shiftr c 6) 0x3F);
               Z.lor 0x80 (Z.land c 0x3F)]
  else if c <? 0x110000 then
    Some [Z.lor 0xF0 (Z.shiftr c 18);
          Z.lor 0x80 (Z.land (Z.shiftr c 12) 0x3F);
          Z.lor 0x80 (Z.land (Z.shiftr c 6) 0x3F);
          Z.lor 0x80 (Z.land c 0x3F)]
  else None.

Fixpoint encode_utf8 (s : str) : option bytes :=
  match s with
  | [] => Some []
  | c :: s' =>
      match encode_char c, encode_utf8 s' with
      | Some b, Some bs => Some (b ++ bs)
      | _, _ => None
      end
  end.

(** A lowercase hexadecimal digit, [0-9a-f]. *)
Definition is_lower_hex (c : char) : bool :=
  ((48 <=? c) && (c <=? 57)) || ((97 <=? c) && (c <=? 102)).

(** 64 lowercase hexadecimal digits: the shape of a SHA-256 hex digest. *)
Definition is_hex64 (h : str) : bool :=
  Nat.eqb (length h) 64 && forallb is_lower_hex h.

(** The texts [encode] accepts. *)
Definition encodable (s : str) : Prop := is_Some (encode_utf8 s).

End Py.

(** ** SHA-256 (FIPS 180-4), the function behind [hashlib.sha256] *)

Module SHA256.

Definition mask32 : Z := 0xFFFFFFFF.
Definition add32 (x y : Z) : Z := Z.land (x + y) mask32.
Definition rotr (n x : Z) : Z :=
  Z.lor (Z.shiftr x n) (Z.land (Z.shiftl x (32 - n)) mask32).
Definition not32 (x : Z) : Z := Z.lxor x mask32.

Definition Ch (x y z : Z) : Z := Z.lxor (Z.land x y) (Z.land (not32 x) z).
Definition Maj (x y z : Z) : Z :=
  Z.lxor (Z.lxor (Z.land x y) (Z.land x z)) (Z.land y z).
Definition Sigma0 (x : Z) : Z :=
  Z.lxor (Z.lxor (rotr 2 x) (rotr 13 x)) (rotr 22 x).
Definition Sigma1 (x : Z) : Z :=
  Z.lxor (Z.lxor (rotr 6 x) (rotr 11 x)) (rotr 25 x).
Definition sigma0 (x : Z) : Z :=
  Z.lxor (Z.lxor (rotr 7 x) (rotr 18 x)) (Z.shiftr x 3).
Definition sigma1 (x : Z) : Z :=
  Z.lxor (Z.lxor (rotr 17 x) (rotr 19 x)) (Z.shiftr x 10).

(** The round constants are the first 32 bits of the fractional parts of
    the cube roots of the first 64 primes, the initial hash value those of
    the square roots of the first 8 primes. *)
Definition is_prime (n : Z) : bool :=
  (1 <? n)
  && forallb (fun d => (n <? d * d) || negb (n mod d =? 0))
             (map Z.of_nat (seq 2 (Z.to_nat n - 2))).

Definition primes : list Z := filter is_prime (map Z.of_nat (seq 2 310)).

(** The integer cube root, one bit at a time from bit [k] down. *)
Fixpoint cube_root_from (k : nat) (n r : Z) : Z :=
  let r' := r + 2 ^ Z.of_nat k in
  let r := if r' * r' * r' <=? n then r' else r in
  match k with
  | O => r
  | S k' => cube_root_from k' n r
  end.

Definition K : list Z :=
  Eval vm_compute in
    map (fun p => cube_root_from 40 (p * 2 ^ 96) 0 mod 2 ^ 32) primes.

(** The eight working variables, also the intermediate hash value. *)
Record Regs := mkRegs { ra : Z; rb : Z; rc : Z; rd : Z;
                        re : Z; rf : Z; rg : Z; rh : Z }.

Definition frac_sqrt (i : nat) : Z :=
  Z.sqrt (nth i primes 0 * 2 ^ 64) mod 2 ^ 32.

Definition H0 : Regs :=
  Eval vm_compute in
    mkRegs (frac_sqrt 0) (frac_sqrt 1) (frac_sqrt 2) (frac_sqrt 3)
           (frac_sqrt 4) (frac_sqrt 5) (frac_sqrt 6) (frac_sqrt 7).

(** Message padding: a 1 bit, zeros, and the bit length on 64 bits. *)
Definition be_bytes8 (n : Z) : list Z :=
  map (fun i => Z.land (Z.shiftr n (8 * i)) 0xFF) [7; 6; 5; 4; 3; 2; 1; 0].

Definition pad (msg : list Z) : list Z :=
  let l := Z.of_nat (length msg) in
  msg ++ [0x80] ++ repeat 0 (Z.to_nat ((55 - l) mod 64))
      ++ be_bytes8 ((8 * l) mod 2 ^ 64).

Fixpoint words_of_bytes (bs : list Z) : list Z :=
  match bs with
  | b0 :: b1 :: b2 :: b3 :: rest =>
      Z.lor (Z.lor (Z.shiftl b0 24) (Z.shiftl b1 16))
            (Z.lor (Z.shiftl b2 8) b3)
      :: words_of_bytes rest
  | _ => []
  end.

(** The message schedule, built back to front: [rw] holds the words so far
    in reverse, so that W(t-2) is at index 1 and W(t-16) at index 15. *)
Fixpoint expand (n : nat) (rw : list Z) : list Z :=
  match n with
  | O => rw
  | S n' =>
      let w := add32 (add32 (sigma1 (nth 1 rw 0)) (nth 6 rw 0))
                     (add32 (sigma0 (nth 14 rw 0)) (nth 15 rw 0)) in
      expand n' (w :: rw)
  end.

Definition schedule (block : list Z) : list Z :=
  rev (expand 48 (rev block)).

Definition round (r : Regs) (kw : Z * Z) : Regs :=
  let t1 := add32 (add32 (add32 (rh r) (Sigma1 (re r)))
                         (add32 (Ch (re r) (rf r) (rg r)) (fst kw)))
                  (snd kw) in
  let t2 := add32 (Sigma0 (ra r)) (Maj (ra r) (rb r) (rc r)) in
  mkRegs (add32 t1 t2) (ra r) (rb r) (rc r)
         (add32 (rd r) t1) (re r) (rf r) (rg r).

Definition compress (h : Regs) (block : list Z) : Regs :=
  let r := fold_left round (combine K (schedule block)) h in
  mkRegs (add32 (ra h) (ra r)) (add32 (rb h) (rb r))
         (add32 (rc h) (rc r)) (add32 (rd h) (rd r))
         (add32 (re h) (re r)) (add32 (rf h) (rf r))
         (add32 (rg h) (rg r)) (add32 (rh h) (rh r)).

Fixpoint hash_blocks (n : nat) (ws : list Z) (h : Regs) : Regs :=
  match n with
  | O => h
  | S n' => hash_blocks n' (drop 16 ws) (compress h (take 16 ws))
  end.

Definition digest (msg : list Z) : Regs :=
  let ws := words_of_bytes (pad msg) in
  hash_blocks (length ws / 16)%nat ws H0.

(** Lowercase hexadecimal, as [hexdigest] prints it. *)
Definition hex_digit (n : Z) : Z := if n <? 10 then 48 + n else 87 + n.

Definition hex8 (w : Z) : list Z :=
  [hex_digit (Z.land (Z.shiftr w 28) 15); hex_digit (Z.land (Z.shiftr w 24) 15);
   hex_digit (Z.land (Z.shiftr w 20) 15); hex_digit (Z.land (Z.shiftr w 16) 15);
   hex_digit (Z.land (Z.shiftr w 12) 15); hex_digit (Z.land (Z.shiftr w 8) 15);
   hex_digit (Z.land (Z.shiftr w 4) 15); hex_digit (Z.land w 15)].

Definition hex_of_regs (r : Regs) : Py.str :=
  hex8 (ra r) ++ hex8 (rb r) ++ hex8 (rc r) ++ hex8 (rd r)
  ++ hex8 (re r) ++ hex8 (rf r) ++ hex8 (rg r) ++ hex8 (rh r).

(** [hashlib.sha256(data).hexdigest()] *)
Definition hexdigest (data : Py.bytes) : Py.str := hex_of_regs (digest data).

Arguments hexdigest : simpl never.

End SHA256.

(** ** The file system, read in text mode *)

Module IO.
Import Py.

(** A computation that may read the file system and may raise. *)
Definition io (A : Type) : Type :=
  gmap string str -> result A * gmap string str.

Definition lift {A} (r : result A) : io A := fun fs => (r, fs).

Definition bind {A B} (m : io A) (k : A -> io B) : io B :=
  fun fs =>
    match m fs with
    | (Ok a, fs') => k a fs'
    | (Raise e, fs') => (Raise e, fs')
    end.

(** [with open(path, 'r') as f: data = list(f)]. The map holds the text as
    the read presents it, decoded and with its line endings translated;
    [TextMode] below relates it to the characters a write has stored. *)
Definition read_lines (path : string) : io (list str) :=
  fun fs =>
    match fs !! path with
    | Some text => (Ok (lines text), fs)
    | None => (Raise FileNotFoundError, fs)
    end.

End IO.

(** ** Files opened in text mode

    [open(path, 'w')] and [open(path, 'r')] with Python's default
    [newline=None]: what a write stores for a text, and what a read presents
    for the characters stored. *)

Module TextMode.
Import Py.

(** Universal newlines: a read presents CR LF and a lone CR as LF.
    [after_cr] tells that the character before was a CR, presented as LF
    already. *)
Fixpoint universal_newlines_from (after_cr : bool) (stored : str) : str :=
  match stored with
  | [] => []
  | c :: rest =>
      if c =? 13 then 10 :: universal_newlines_from true rest
      else if (c =? 10) && after_cr then universal_newlines_from false rest
      else c :: universal_newlines_from false rest
  end.

Definition universal_newlines (stored : str) : str :=
  universal_newlines_from false stored.

(** A write stores every LF as [os.linesep]: CR LF on Windows ([crlf]), LF
    elsewhere. *)
Definition write_newlines (crlf : bool) (text : str) : str :=
  if crlf then flat_map (fun c => if c =? 10 then [13; 10] else [c]) text
  else text.


End TextMode.

(** ** Checksum stamp: [is_ini_edited] and [IniMaker.with_checksum] *)

Module Checksum.
Import Py.

Definition checksum_prefix : str := lit "; SHA256 CHECKSUM: ".

(** The body of [is_ini_edited] once [data = list(f)] is read. *)
Definition is_ini_edited_lines (data : list str) : result bool :=
  match last_item data with
  | Raise e => Raise e
  | Ok last_line =>
      let checksum := strip last_line in
      if negb (startswith checksum checksum_prefix) then Ok false
      else
        let sha256 := replace checksum checksum_prefix [] in
        let ini_data := but_last data in
        match encode_utf8 (join ini_data) with
        | None => Raise UnicodeEncodeError
        | Some b =>
            let ini_sha256 := SHA256.hexdigest b in
            if negb (str_eqb ini_sha256 sha256) then Ok true else Ok false
        end
  end.

(** The two hashes [is_ini_edited_lines] compares: the one the last line
    claims, and the one of the lines above it. *)
Definition claimed_sha256 (last_line : str) : str :=
  replace (strip last_line) checksum_prefix [].

Definition lines_above (text : str) : str := join (but_last (lines text)).

Definition is_ini_edited (ini_path : string) : IO.io bool :=
  IO.bind (IO.read_lines ini_path)
          (fun data => IO.lift (is_ini_edited_lines data)).

End Checksum.

(** ** The document builder *)

Module IniBuilder.
Import Py.

Inductive SectionType :=
| Constants
| Present
| Resource
| CommandList
| TextureOverride.

(** [IniSection(comment=..., name=..., section_type=..., hash=...)] *)
Record IniSection := mkSection {
  comment : option str;
  name : str;
  section_type : SectionType;
  hash : option str
}.

Record Group := mkGroup {
  group_header : option str;
  group_footer : option str;
  group_sections : list IniSection
}.

Definition empty_group : Group := mkGroup None None [].

(** Modelled from the spec: the class [IniBuilder] (module
    [ini_builder.IniBuilder]) is not part of the sources at hand. The
    builder owns its leading header, its options and its groups, kept here
    in the order in which they were created; a group is created the first
    time its index is used. *)
Record IniBuilder := mkBuilder {
  skip_comments : bool;
  header : str;
  groups : list (nat * Group)
}.

(** [IniBuilder({'skip_comments': b})] *)
Definition new (skip : bool) : IniBuilder := mkBuilder skip [] [].

Definition set_header (text : str) (b : IniBuilder) : IniBuilder :=
  mkBuilder (skip_comments b) text (groups b).

(** Apply [f] to the group at [idx], creating it at the end when [idx] has
    not been used yet. *)
Fixpoint update_group (idx : nat) (f : Group -> Group)
    (gs : list (nat * Group)) : list (nat * Group) :=
  match gs with
  | [] => [(idx, f empty_group)]
  | (i, g) :: gs' =>
      if Nat.eqb i idx then (i, f g) :: gs'
      else (i, g) :: update_group idx f gs'
  end.

Definition on_group (idx : nat) (f : Group -> Group) (b : IniBuilder)
    : IniBuilder :=
  mkBuilder (skip_comments b) (header b) (update_group idx f (groups b)).

(** Modelled from the spec: [set_group_header(index, text)] attaches
    literal text rendered before the sections of the group. *)
Definition set_group_header (idx : nat) (text : str) : IniBuilder -> IniBuilder :=
  on_group idx (fun g => mkGroup (Some text) (group_footer g) (group_sections g)).

(** Modelled from the spec: [set_group_footer(index, text)] attaches
    literal text rendered after the sections of the group. *)
Definition set_group_footer (idx : nat) (text : str) : IniBuilder -> IniBuilder :=
  on_group idx (fun g => mkGroup (group_header g) (Some text) (group_sections g)).

(** Modelled from the spec: [add_section(section, index)] appends the
    section to the group at [index]. *)
Definition add_section (s : IniSection) (idx : nat) : IniBuilder -> IniBuilder :=
  on_group idx
    (fun g => mkGroup (group_header g) (group_footer g) (group_sections g ++ [s])).

(** The indices in use, in the order of their first use, and the group
    stored under an index. *)
Definition indices (b : IniBuilder) : list nat := (groups b).*1.

Fixpoint find_group (idx : nat) (gs : list (nat * Group)) : option Group :=
  match gs with
  | [] => None
  | (i, g) :: gs' => if Nat.eqb i idx then Some g else find_group idx gs'
  end.

(** What one more use of [idx] does to the indices in use. *)
Definition register (idx : nat) (l : list nat) : list nat :=
  if bool_decide (idx ∈ l) then l else l ++ [idx].






(** The groups by ascending index, as [build] visits them. *)
Definition index_le (p q : nat * Group) : Prop := (p.1 <= q.1)%nat.

#[global] Instance index_le_dec : RelDecision index_le :=
  fun p q => decide (p.1 <= q.1)%nat.

Definition render_order (b : IniBuilder) : list (nat * Group) :=
  merge_sort index_le (groups b).

Section Render.

(** The text of one section: title, hash line and body. It belongs to the
    classes [IniSection] and [IniSectionBody], which are not part of the
    sources at hand; the first argument is the [skip_comments] option. *)
Variable render_section : bool -> IniSection -> str.

Definition render_group (skip : bool) (g : Group) : str :=
  default [] (group_header g)
  ++ concat (map (render_section skip) (group_sections g))
  ++ default [] (group_footer g).

(** Modelled from the spec: [build()] renders the leading header, then each
    group by ascending index: its header, its sections in insertion order,
    its footer. *)
Definition build (b : IniBuilder) : str :=
  header b
  ++ concat (map (fun p => render_group (skip_comments b) p.2) (render_order b)).

End Render.

End IniBuilder.

(** ** IniMaker *)

Module IniMaker.
Import Py IniBuilder.

(** The fields of the collected metadata that the layout of the document
    reads. Versions are kept as the text [%s] prints for them. *)
Record ModInfo := mkModInfo {
  wwmi_tools_version : str;
  required_wwmi_version : str
}.

Record Component := mkComponent {
  index_offset : Z;
  index_count : Z
}.

Record MeshObject := mkMeshObject {
  vb0_hash : str;
  vb1_hash : str;
  components : list Component
}.

Record ShapeKeys := mkShapeKeys {
  offsets_hash : str;
  scale_hash : str;
  custom_vertex_count : Z
}.

Record Texture := mkTexture {
  texture_hash : str;
  filename : str
}.

(** The input fields of the dataclass; [buffers] keeps the keys of the
    dictionary in their order. *)
Record IniMaker := mkIniMaker {
  mod_info : ModInfo;
  mesh_object : MeshObject;
  shapekeys : ShapeKeys;
  buffers : list str;
  textures : list Texture;
  comment_code : bool
}.

Definition nl : str := [10].

(** [f'{n}'] for a non-negative integer *)
Definition str_of_nat (n : nat) : str :=
  lit (NilZero.string_of_uint (Nat.to_uint n)).

(** [enumerate(xs)] *)
Definition enumerate {A} (xs : list A) : list (nat * A) :=
  combine (seq 0 (length xs)) xs.

Definition section (c : string) (n : string) (t : SectionType) : IniSection :=
  mkSection (Some (lit c)) (lit n) t None.

Definition hashed_section (c : string) (n : string) (t : SectionType)
    (h : str) : IniSection :=
  mkSection (Some (lit c)) (lit n) t (Some h).

Definition make_mod_state_group (self : IniMaker) (ini : IniBuilder) : IniBuilder :=
  let ini := set_group_header 0
    (lit "; Mod State -------------------------" ++ nl ++ nl) ini in
  let ini := add_section
    (section "Global variables used by entire mod" "" Constants) 0 ini in
  add_section
    (section "List of commands executed for every frame" "" Present) 0 ini.

Definition make_mod_info_group (self : IniMaker) (ini : IniBuilder) : IniBuilder :=
  let ini := set_group_header 1
    (lit "; Resources: Mod Info -------------------------" ++ nl ++ nl) ini in
  let ini := add_section (section "Name of mod" "ModName" Resource) 1 ini in
  let ini := add_section (section "Name of mod author" "ModAuthor" Resource) 1 ini in
  let ini := add_section (section "Mod description" "ModDesc" Resource) 1 ini in
  let ini := add_section (section "Link to mod repository" "ModLink" Resource) 1 ini in
  add_section
    (section "Texture file with 512x512 .dds (BC7 SRGB) mod logo" "ModLogo" Resource)
    1 ini.

Definition make_draw_calls_group (self : IniMaker) (ini : IniBuilder) : IniBuilder :=
  let ini := set_group_header 2
    (lit "; Shading: Draw Call Stacks Processing -------------------------"
     ++ nl ++ nl) ini in
  let ini := add_section
    (section "Overrides resources that are shared between VS calls"
             "OverrideSharedResources" CommandList) 2 ini in
  let ini := add_section
    (section "Overrides textures via triggering [ResourceTextureX] sections by calling chechtextureoverride on ps-t slots"
             "OverrideTextures" CommandList) 2 ini in
  fold_left
    (fun ini (ic : nat * Component) =>
       let component_id := ic.1 in
       add_section
         (mkSection
            (Some (lit "Override draw calls for Component " ++ str_of_nat component_id))
            (lit "Component" ++ str_of_nat component_id)
            TextureOverride
            (Some (vb0_hash (mesh_object self))))
         2 ini)
    (enumerate (components (mesh_object self))) ini.

Definition make_texture_resources_group (self : IniMaker) (ini : IniBuilder)
    : IniBuilder :=
  let ini := set_group_header 3
    (lit "; Shading: Textures -------------------------" ++ nl ++ nl) ini in
  fold_left
    (fun ini (it : nat * Texture) =>
       let texture_id := it.1 in
       let texture := it.2 in
       let ini := add_section
         (mkSection None (lit "Texture" ++ str_of_nat texture_id) Resource None)
         3 ini in
       add_section
         (mkSection None (lit "Texture" ++ str_of_nat texture_id) TextureOverride
                    (Some (texture_hash texture)))
         3 ini)
    (enumerate (textures self)) ini.

Definition make_shape_keys_override_group (self : IniMaker) (ini : IniBuilder)
    : IniBuilder :=
  let ini := set_group_header 4
    (lit "; Skinning: Shape Keys Override -------------------------" ++ nl ++ nl)
    ini in
  let ini := add_section
    (hashed_section "Increases size of UAV that stores shapekeyed vertices xyz offsets to support more vertices than original"
       "VertexLimitRaiseShapeKeyOffsets" TextureOverride
       (offsets_hash (shapekeys self))) 4 ini in
  let ini := add_section
    (hashed_section "Increases size of UAV that stores shapekeyed vertices multipliers to support more vertices than original"
       "VertexLimitRaiseShapeKeyScale" TextureOverride
       (scale_hash (shapekeys self))) 4 ini in
  let ini := add_section
    (section "Updates ResourceShapeKeyCBRW that stores offsets of shapekeyed vertex lists, shape key values and multipliers"
       "SetupShapeKeys" CommandList) 4 ini in
  let ini := add_section
    (section "Runs custom Shape Key Loader CS to, well, load shapekeys data from buffers"
       "LoadShapeKeys" CommandList) 4 ini in
  let ini := add_section
    (hashed_section "Handles WWMI callback fired on original Shape Key Loader CS call"
       "ShapeKeyLoaderCallback" TextureOverride
       (offsets_hash (shapekeys self))) 4 ini in
  let ini := add_section
    (section "Runs custom Shape Key Loader CS to, well, load shapekeys data from buffers"
       "MultiplyShapeKeys" CommandList) 4 ini in
  add_section
    (hashed_section "Handles WWMI callback fired on original Shape Key Multiplier CS call"
       "ShapeKeyMultiplierCallback" TextureOverride
       (offsets_hash (shapekeys self))) 4 ini.

Definition make_skeleton_override_group (self : IniMaker) (ini : IniBuilder)
    : IniBuilder :=
  let ini := set_group_header 5
    (lit "; Skinning: Skeleton Override -------------------------" ++ nl ++ nl)
    ini in
  let ini := add_section
    (hashed_section "Increases size of UAV that stores VB0 to support more vertices than original"
       "VertexLimitRaiseVB0" TextureOverride (vb0_hash (mesh_object self))) 5 ini in
  let ini := add_section
    (hashed_section "Increases size of UAV that stores VB1 to support more vertices than original"
       "VertexLimitRaiseVB1" TextureOverride (vb1_hash (mesh_object self))) 5 ini in
  let ini := add_section
    (section "Contacts WWMI to check whether installed version is compatible with our mod"
       "RegisterMod" CommandList) 5 ini in
  let ini := add_section
    (section "Update ResourceMergedSkeletonRW with bones data of current component"
       "MergeSkeleton" CommandList) 5 ini in
  let ini := add_section
    (section "Pose entire mesh with merged skeleton using custom WWMI Pose CS"
       "SkinMesh" CommandList) 5 ini in
  add_section
    (hashed_section "Handles WWMI callback fired on original Basis or ShapeKeyed Mesh Skinner CS call"
       "MeshSkinnerCallback" TextureOverride (vb0_hash (mesh_object self))) 5 ini.

Definition make_buffer_resources_group (self : IniMaker) (ini : IniBuilder)
    : IniBuilder :=
  let ini := set_group_header 6
    (lit "; Resources: Buffers -------------------------" ++ nl ++ nl) ini in
  fold_left
    (fun ini (buffer_name : str) =>
       add_section (mkSection None (buffer_name ++ lit "Buffer") Resource None)
                   6 ini)
    (buffers self) ini.

Definition make_shape_keys_resources_group (self : IniMaker) (ini : IniBuilder)
    : IniBuilder :=
  let ini := set_group_header 7
    (lit "; Resources: Shape Keys Override -------------------------" ++ nl ++ nl)
    ini in
  let ini := add_section
    (section "Stores dynamically calculated CB required to override original Shape Keys CS call"
       "ShapeKeyCBRW" Resource) 7 ini in
  add_section
    (section "Stores values of custom Shape Keys and overrides for original ones"
       "CustomShapeKeyValuesRW" Resource) 7 ini.

Definition make_skeleton_resources_group (self : IniMaker) (ini : IniBuilder)
    : IniBuilder :=
  let ini := set_group_header 8
    (lit "; Resources: Skeleton Override -------------------------" ++ nl ++ nl)
    ini in
  let ini := add_section
    (section "Stores reference to dynamic data (xyz coords offsets) generated by Shape Key CS"
       "ShapeKeyDataRef" Resource) 8 ini in
  add_section
    (section "Stores merged skeleton consisting of bones from all components, allows to make VG weights global"
       "MergedSkeletonRW" Resource) 8 ini.

Definition autogenerated_footer (self : IniMaker) : str :=
  let msg :=
    lit "This mod.ini was automatically generated by WWMI Tools Blender addon v"
    ++ wwmi_tools_version (mod_info self)
    ++ lit " and requires WWMI v"
    ++ required_wwmi_version (mod_info self)
    ++ lit "+ to function" in
  nl
  ++ lit "; Autogenerated -------------------------" ++ nl
  ++ nl
  ++ lit "; " ++ msg ++ nl
  ++ lit "; WWMI Link: https://gamebanana.com/mods/xxxxxx" ++ nl
  ++ lit "; WWMI GitHub: https://github.com/SpectrumQT/WWMI" ++ nl
  ++ lit "; WWMI Tools Link: https://gamebanana.com/mods/xxxxxx" ++ nl
  ++ lit "; WWMI Tools GitHub: https://github.com/SpectrumQT/WWMI_Tools" ++ nl
  ++ lit "; AGMG Modding Community Discord: https://discord.com/invite/agmg" ++ nl
  ++ nl.

Definition make_autogenerated_group (self : IniMaker) (ini : IniBuilder)
    : IniBuilder :=
  set_group_footer 8 (autogenerated_footer self) ini.

(** [__post_init__]: the builder as the constructor leaves it. *)
Definition post_init (self : IniMaker) : IniBuilder :=
  let ini := IniBuilder.new (negb (comment_code self)) in
  let ini := set_header (lit "; WWMI ALPHA-1 INI" ++ nl ++ nl) ini in
  let ini := make_mod_state_group self ini in
  let ini := if 0 <? custom_vertex_count (shapekeys self)
             then make_shape_keys_override_group self ini else ini in
  let ini := make_skeleton_override_group self ini in
  let ini := make_draw_calls_group self ini in
  let ini := make_mod_info_group self ini in
  let ini := make_texture_resources_group self ini in
  let ini := make_buffer_resources_group self ini in
  let ini := if 0 <? custom_vertex_count (shapekeys self)
             then make_shape_keys_resources_group self ini else ini in
  let ini := make_skeleton_resources_group self ini in
  make_autogenerated_group self ini.

(** The line [with_checksum] appends for the digest [sha256]. *)
Definition stamp (sha256 : str) : str :=
  lit "; SHA256 CHECKSUM: " ++ sha256 ++ nl.

Definition with_checksum (lines : str) : result str :=
  match encode_utf8 lines with
  | None => Raise UnicodeEncodeError
  | Some b =>
      let sha256 := SHA256.hexdigest b in
      Ok (lines ++ stamp sha256)
  end.

Section Build.

Variable render_section : bool -> IniSection -> str.

Definition build (self : IniMaker) : result str :=
  with_checksum (IniBuilder.build render_section (post_init self)).

End Build.

End IniMaker.

(** ** A small export, used to run the definitions *)

Module Sample.
Import Py IniBuilder IniMaker.



(** One component, one texture, one buffer, with shape keys. *)
Definition maker : IniMaker :=
  mkIniMaker
    (mkModInfo (lit "1.0.0") (lit "0.7.0"))
    (mkMeshObject (lit "8a2b1c3d") (lit "0f1e2d3c") [mkComponent 0 300])
    (mkShapeKeys (lit "aabbccdd") (lit "11223344") 12)
    [lit "Index"]
    [mkTexture (lit "deadbeef") (lit "Diffuse.dds")]
    true.

End Sample.

(** ** Texture discovery: [texture_collector.get_textures] *)

Module TextureCollector.
Import Py.

(** The dataclass [Texture]; [path] is kept as the text the [Path] is built
    from. *)
Record Texture := mkTexture {
  hash : str;
  path : str;
  filename : str
}.

(** An entry of [os.scandir]: its [name] and its [path]. *)
Record DirEntry := mkDirEntry {
  entry_name : str;
  entry_path : str
}.

(** [s.endswith(suffix)] and [s.endswith((suffix, ...))] *)
Definition endswith (s suffix : str) : bool :=
  startswith (rev s) (rev suffix).

Definition endswith_any (s : str) (suffixes : list str) : bool :=
  existsb (endswith s) suffixes.

Definition texture_suffixes : list str :=
  [lit ".dds"; lit ".jpg"; lit ".png"; lit ".tga"; lit ".jpeg"; lit ".tiff";
   lit "tif"].

(** [s.split('\n')] *)
Fixpoint split_newline (s : str) : list str :=
  match s with
  | [] => [[]]
  | c :: s' =>
      if c =? 10 then [] :: split_newline s'
      else match split_newline s' with
           | [] => [[c]]
           | l :: ls => (c :: l) :: ls
           end
  end.

Fixpoint tails (s : str) : list str :=
  s :: match s with
       | [] => []
       | _ :: s' => tails s'
       end.

(** The group [([a-f0-9]{8})] at the start of [s]. *)
Definition hex8_at (s : str) : option str :=
  let h := take 8 s in
  if Nat.eqb (length h) 8 && forallb is_lower_hex h then Some h else None.

(** Eight characters of [a-f0-9]: what the group captures. *)
Definition hash_shape (h : str) : Prop :=
  length h = 8%nat /\ Forall (fun c => is_lower_hex c = true) h.

(** [t=([a-f0-9]{8})] at the start of [s]. *)
Definition new_format_at (s : str) : option str :=
  if startswith s (lit "t=") then hex8_at (drop 2 s) else None.

Section OldFormat.

(** [\d] of a text pattern: the decimal digits of Unicode, a table of the
    [re] module. *)
Variable isdecimal : char -> bool.

(** [component_\d-ps-t\d-([a-f0-9]{8})] at the start of [s]. *)
Definition old_format_at (s : str) : option str :=
  if startswith s (lit "component_") then
    match drop 10 s with
    | d1 :: r1 =>
        if isdecimal d1 && startswith r1 (lit "-ps-t") then
          match drop 5 r1 with
          | d2 :: r2 =>
              if isdecimal d2 && startswith r2 (lit "-")
              then hex8_at (drop 1 r2) else None
          | [] => None
          end
        else None
    | [] => None
    end
  else None.

End OldFormat.

(** [re.compile('.*' + P + '.*').findall(s)] for a pattern [P] with one
    group that matches no newline, [at_start] telling what [P] captures at
    the start of a text. A dot matches anything but a newline and both [.*]
    are greedy: on each line where [P] occurs there is one match, it spans
    the line, and its group is taken at the last place of the line where
    [P] matches. *)
Definition last_on_line (at_start : str -> option str) (line : str)
    : option str :=
  last (omap at_start (tails line)).

Definition findall (at_start : str -> option str) (s : str) : list str :=
  omap (last_on_line at_start) (split_newline s).

(** [os.path.splitext(p)[0]] for a file name, which holds no separator: the
    name up to its last dot, unless only dots come before that dot. *)
Fixpoint rfind_from (c : char) (s : str) (i : nat) (found : option nat)
    : option nat :=
  match s with
  | [] => found
  | x :: s' => rfind_from c s' (S i) (if x =? c then Some i else found)
  end.

Definition rfind (c : char) (s : str) : option nat := rfind_from c s O None.

Definition splitext_root (p : str) : str :=
  match rfind 46 p with
  | None => p
  | Some dot =>
      if forallb (fun x => x =? 46) (take dot p) then p else take dot p
  end.

(** [textures[key] = value]: a key already present keeps its place. *)
Fixpoint dict_set (key : str) (value : Texture) (d : list (str * Texture))
    : list (str * Texture) :=
  match d with
  | [] => [(key, value)]
  | (k, v) :: d' =>
      if str_eqb k key then (k, value) :: d'
      else (k, v) :: dict_set key value d'
  end.

Section GetTextures.

(** [str.lower], a table of the interpreter. *)
Variable lower : str -> str.
Variable isdecimal : char -> bool.

(** The hash a lowered file name carries: the new format when it matches
    exactly once, else the old format when that matches exactly once. *)
Definition texture_hash_of (texname : str) : option str :=
  let result := findall new_format_at texname in
  if negb (Nat.eqb (length result) 1) then
    let result := findall (old_format_at isdecimal) texname in
    if negb (Nat.eqb (length result) 1) then None
    else head result
  else head result.

(** The file name recorded for a texture. *)
Definition dds_name (texname : str) : str :=
  if negb (endswith texname (lit ".dds"))
  then splitext_root texname ++ lit ".dds"
  else texname.

(** One turn of the loop over the directory. The calls to the converter
    and the look-ups in the environment are left out: whatever they raise is
    caught, and the value returned does not depend on them. *)
Definition visit (textures : list (str * Texture)) (texfile : DirEntry)
    : list (str * Texture) :=
  let texname := lower (entry_name texfile) in
  if endswith_any texname texture_suffixes then
    match texture_hash_of texname with
    | None => textures
    | Some texture_hash =>
        dict_set texture_hash
          (mkTexture texture_hash (entry_path texfile) (dds_name texname))
          textures
    end
  else textures.

(** The texture one entry gives, when the loop does not skip it. *)
Definition texture_of (texfile : DirEntry) : option Texture :=
  let texname := lower (entry_name texfile) in
  if endswith_any texname texture_suffixes then
    match texture_hash_of texname with
    | None => None
    | Some texture_hash =>
        Some (mkTexture texture_hash (entry_path texfile) (dds_name texname))
    end
  else None.

(** The dictionary [textures] when the loop ends. *)
Definition collected (listing : list DirEntry) : list (str * Texture) :=
  fold_left visit listing [].

(** [get_textures], from the entries [os.scandir] yields. *)
Definition get_textures (listing : list DirEntry) : list Texture :=
  (fold_left visit listing []).*2.

End GetTextures.

(** For running the definitions: lowering and digits of ASCII, and a
    directory. *)
Definition ascii_lower (s : str) : str :=
  map (fun c => if (65 <=? c) && (c <=? 90) then c + 32 else c) s.

Definition ascii_digit (c : char) : bool := (48 <=? c) && (c <=? 57).

Definition sample_listing : list DirEntry :=
  [mkDirEntry (lit "Body t=1A2b3c4d.PNG") (lit "mod/Body t=1A2b3c4d.PNG");
   mkDirEntry (lit "component_0-ps-t1-deadbeef.dds")
              (lit "mod/component_0-ps-t1-deadbeef.dds");
   mkDirEntry (lit "notes.txt") (lit "mod/notes.txt")].

Definition sample_texture : Texture :=
  mkTexture (lit "1a2b3c4d") (lit "mod/Body t=1A2b3c4d.PNG")
            (lit "body t=1a2b3c4d.dds").

End TextureCollector.

(** ** Unicode scalar values *)

Module Unicode.

(** A code point that is no surrogate: what a well-formed text holds. *)
Definition is_scalar (c : Py.char) : bool :=
  ((0 <=? c) && (c <? 0xD800)) || ((0xE000 <=? c) && (c <? 0x110000)).

End Unicode.

(** ** Reading the layout IniMaker registers *)

Module Layout.
Import Py IniBuilder IniMaker.

#[global] Instance section_type_eq_dec : EqDecision SectionType.
Proof. solve_decision. Defined.

(** Every section of the builder, group after group. *)
Definition all_sections (b : IniBuilder) : list IniSection :=
  concat (map (fun p => group_sections p.2) (groups b)).

(** The sections of the group at [idx], none when there is no such group. *)
Definition sections_of (idx : nat) (b : IniBuilder) : list IniSection :=
  group_sections (default empty_group (find_group idx (groups b))).

(** What tells two sections apart in the document: kind and name. *)
Definition title_key (s : IniSection) : SectionType * str :=
  (section_type s, name s).

(** A section carries a hash exactly when it is a TextureOverride. *)
Definition hash_matches_type (s : IniSection) : bool :=
  match section_type s, hash s with
  | TextureOverride, Some _ => true
  | TextureOverride, None => false
  | _, Some _ => false
  | _, None => true
  end.

(** A step that acts on the builder as one update of the group [idx],
    an update that appends the sections [news] to the group. *)
Definition adds_sections (idx : nat) (step : IniBuilder -> IniBuilder)
    (news : list IniSection) : Prop :=
  exists F : Group -> Group,
    (forall b, step b = on_group idx F b)
    /\ (forall g, group_sections (F g) = group_sections g ++ news).

(** The methods [__post_init__] calls, each with the index it works on. *)
Definition group_makers
    : list (nat * (IniMaker -> IniBuilder -> IniBuilder)) :=
  [(0%nat, make_mod_state_group);
   (4%nat, make_shape_keys_override_group);
   (5%nat, make_skeleton_override_group);
   (2%nat, make_draw_calls_group);
   (1%nat, make_mod_info_group);
   (3%nat, make_texture_resources_group);
   (6%nat, make_buffer_resources_group);
   (7%nat, make_shape_keys_resources_group);
   (8%nat, make_skeleton_resources_group);
   (8%nat, make_autogenerated_group)].

(** The sections the loops of [make_texture_resources_group],
    [make_buffer_resources_group] and [make_draw_calls_group] add on one
    turn. *)
Definition texture_sections (it : nat * Texture) : list IniSection :=
  [mkSection None (lit "Texture" ++ str_of_nat it.1) Resource None;
   mkSection None (lit "Texture" ++ str_of_nat it.1) TextureOverride
             (Some (texture_hash it.2))].

Definition buffer_section (buffer_name : str) : IniSection :=
  mkSection None (buffer_name ++ lit "Buffer") Resource None.

Definition component_section (self : IniMaker) (ic : nat * Component)
    : IniSection :=
  mkSection (Some (lit "Override draw calls for Component " ++ str_of_nat ic.1))
            (lit "Component" ++ str_of_nat ic.1)
            TextureOverride
            (Some (vb0_hash (mesh_object self))).

(** The titles each method registers, read off its [IniSection] calls. *)
Definition mod_state_titles : list (SectionType * str) :=
  [(Constants, lit ""); (Present, lit "")].

Definition mod_info_titles : list (SectionType * str) :=
  [(Resource, lit "ModName"); (Resource, lit "ModAuthor");
   (Resource, lit "ModDesc"); (Resource, lit "ModLink");
   (Resource, lit "ModLogo")].

Definition draw_calls_titles : list (SectionType * str) :=
  [(CommandList, lit "OverrideSharedResources");
   (CommandList, lit "OverrideTextures")].

Definition shape_keys_override_titles : list (SectionType * str) :=
  [(TextureOverride, lit "VertexLimitRaiseShapeKeyOffsets");
   (TextureOverride, lit "VertexLimitRaiseShapeKeyScale");
   (CommandList, lit "SetupShapeKeys");
   (CommandList, lit "LoadShapeKeys");
   (TextureOverride, lit "ShapeKeyLoaderCallback");
   (CommandList, lit "MultiplyShapeKeys");
   (TextureOverride, lit "ShapeKeyMultiplierCallback")].

Definition skeleton_override_titles : list (SectionType * str) :=
  [(TextureOverride, lit "VertexLimitRaiseVB0");
   (TextureOverride, lit "VertexLimitRaiseVB1");
   (CommandList, lit "RegisterMod");
   (CommandList, lit "MergeSkeleton");
   (CommandList, lit "SkinMesh");
   (TextureOverride, lit "MeshSkinnerCallback")].

Definition shape_keys_resources_titles : list (SectionType * str) :=
  [(Resource, lit "ShapeKeyCBRW"); (Resource, lit "CustomShapeKeyValuesRW")].

Definition skeleton_resources_titles : list (SectionType * str) :=
  [(Resource, lit "ShapeKeyDataRef"); (Resource, lit "MergedSkeletonRW")].

Definition component_title (i : nat) : SectionType * str :=
  (TextureOverride, lit "Component" ++ str_of_nat i).

Definition texture_titles (i : nat) : list (SectionType * str) :=
  [(Resource, lit "Texture" ++ str_of_nat i);
   (TextureOverride, lit "Texture" ++ str_of_nat i)].

Definition buffer_title (buffer_name : str) : SectionType * str :=
  (Resource, buffer_name ++ lit "Buffer").

(** The titles [__post_init__] registers, latest method first. *)
Definition registered_titles (self : IniMaker) : list (SectionType * str) :=
  let shape_keys := 0 <? custom_vertex_count (shapekeys self) in
  skeleton_resources_titles
  ++ (if shape_keys then shape_keys_resources_titles else [])
  ++ (buffer_title <$> buffers self)
  ++ concat (map texture_titles (seq 0 (length (textures self))))
  ++ mod_info_titles
  ++ draw_calls_titles
  ++ (component_title <$> seq 0 (length (components (mesh_object self))))
  ++ skeleton_override_titles
  ++ (if shape_keys then shape_keys_override_titles else [])
  ++ mod_state_titles.

(** The family a title belongs to: 1 for the title of a component, 2 for a
    title of a texture, 3 for the title of a buffer, 0 for the others. *)
Definition texture_like (n : str) : bool :=
  startswith n (lit "Texture")
  && match last n with
     | Some c => (48 <=? c) && (c <=? 57)
     | None => false
     end.

Definition title_family (k : SectionType * str) : nat :=
  match k.1 with
  | TextureOverride =>
      if startswith k.2 (lit "Component") then 1
      else if texture_like k.2 then 2 else 0
  | Resource =>
      if texture_like k.2 then 2
      else if TextureCollector.endswith k.2 (lit "Buffer") then 3 else 0
  | _ => 0
  end%nat.

End Layout.

(** * Properties *)

(** ** Test vectors *)

Example sha256_empty :
  SHA256.hexdigest [] =
  Py.lit "e3b0c44298fc1c149afbf4c8996fb92427ae41e4649b934ca495991b7852b855".
Proof. vm_compute. reflexivity. Qed.

Example sha256_abc :
  SHA256.hexdigest [97; 98; 99] =
  Py.lit "ba7816bf8f01cfea414140de5dae2223b00361a396177a9cb410ff61f20015ad".
Proof. vm_compute. reflexivity. Qed.

Example sha256_two_blocks :
  option_map SHA256.hexdigest
    (Py.encode_utf8
       (Py.lit "abcdbcdecdefdefgefghfghighijhijkijkljklmklmnlmnomnopnopq")) =
  Some (Py.lit "248d6a61d20638b8e5c026930c3e6039a33ce45964ff2167f6ecedd419db06c1").
Proof. vm_compute. reflexivity. Qed.

Example encode_utf8_sample :
  Py.encode_utf8 [0x41; 0xE9; 0x20AC; 0x1F600]
  = Some [0x41; 0xC3; 0xA9; 0xE2; 0x82; 0xAC; 0xF0; 0x9F; 0x98; 0x80]
  /\ Py.encode_utf8 [0xD800] = None.
Proof. vm_compute. done. Qed.

Example strip_sample :
  Py.strip (Py.lit "  ; x " ++ [9; 10]) = Py.lit "; x".
Proof. reflexivity. Qed.

Example replace_sample :
  Py.replace (Py.lit "abXYcdXYXY") (Py.lit "XY") [] = Py.lit "abcd".
Proof. reflexivity. Qed.

Example lines_sample :
  Py.lines (Py.lit "a" ++ [10; 10] ++ Py.lit "bc")
  = [Py.lit "a" ++ [10]; [10]; Py.lit "bc"].
Proof. reflexivity. Qed.

(** ** Strings *)

Section PyFacts.
Import Py.

Lemma startswith_app (p r : str) : startswith (p ++ r) p = true.
Proof.
  induction p as [|a p IH]; simpl; [done|].
  by rewrite Z.eqb_refl, IH.
Qed.

Lemma startswith_inv (s p : str) :
  startswith s p = true -> exists r, s = p ++ r.
Proof.
  revert s. induction p as [|a p IH]; intros s H; simpl in *.
  - by exists s.
  - destruct s as [|c s]; [done|].
    apply andb_prop in H as [Hc Hs]. apply Z.eqb_eq in Hc. subst c.
    destruct (IH _ Hs) as [r ->]. by exists r.
Qed.

Lemma startswith_head_ne (s p : str) (a c : char) :
  c <> a -> startswith (c :: s) (a :: p) = false.
Proof. intros Hne. simpl. by apply Z.eqb_neq in Hne as ->. Qed.

Lemma str_eqb_eq (a b : str) : str_eqb a b = true <-> a = b.
Proof.
  revert b. induction a as [|x a IH]; intros [|y b]; simpl; try done.
  rewrite andb_true_iff, Z.eqb_eq, IH. split.
  - by intros [-> ->].
  - intros [= -> ->]. done.
Qed.

Lemma str_eqb_refl (a : str) : str_eqb a a = true.
Proof. by apply str_eqb_eq. Qed.

Lemma str_eqb_neq (a b : str) : str_eqb a b = false <-> a <> b.
Proof.
  rewrite <- str_eqb_eq. destruct (str_eqb a b); split; done.
Qed.

(** *** strip *)

Lemma lstrip_spaces (ws x : str) :
  Forall (fun c => isspace c = true) ws -> lstrip (ws ++ x) = lstrip x.
Proof.
  induction 1 as [|c ws Hc _ IH]; simpl; [done|]. by rewrite Hc.
Qed.

Lemma lstrip_app_r (x ws : str) :
  Forall (fun c => isspace c = true) ws ->
  (lstrip (x ++ ws) = lstrip x ++ ws /\ lstrip x <> [])
  \/ (lstrip (x ++ ws) = [] /\ lstrip x = []).
Proof.
  intros Hws. induction x as [|c x IH]; simpl.
  - right. split; [|done]. rewrite <- (app_nil_r ws). by apply lstrip_spaces.
  - destruct (isspace c); [done|]. left. done.
Qed.

Lemma rstrip_spaces (x ws : str) :
  Forall (fun c => isspace c = true) ws -> rstrip (x ++ ws) = rstrip x.
Proof.
  intros Hws. unfold rstrip. rewrite rev_app_distr, lstrip_spaces; [done|].
  apply Forall_forall. intros c Hc. rewrite list_elem_of_In in Hc.
  apply in_rev in Hc. rewrite <- list_elem_of_In in Hc.
  by apply (proj1 (Forall_forall _ _) Hws).
Qed.

(** White space around a line does not change what [strip] returns. *)
Lemma strip_padding (ws1 x ws2 : str) :
  Forall (fun c => isspace c = true) ws1 ->
  Forall (fun c => isspace c = true) ws2 ->
  strip (ws1 ++ x ++ ws2) = strip x.
Proof.
  intros H1 H2. unfold strip. rewrite lstrip_spaces by done.
  destruct (lstrip_app_r x ws2 H2) as [[-> _]|[-> ->]].
  - by apply rstrip_spaces.
  - done.
Qed.

Lemma lstrip_head (c : char) (s : str) :
  isspace c = false -> lstrip (c :: s) = c :: s.
Proof. intros H. simpl. by rewrite H. Qed.

Lemma rstrip_last (s : str) (c : char) :
  isspace c = false -> rstrip (s ++ [c]) = s ++ [c].
Proof.
  intros H. unfold rstrip. rewrite rev_app_distr. simpl.
  rewrite H. simpl. by rewrite rev_involutive.
Qed.

(** *** replace *)

Lemma replace_from_skip (old new r s : str) :
  replace_from old new (length r) (r ++ s) = replace_from old new O s.
Proof. induction r as [|c r IH]; simpl; done. Qed.

Lemma replace_from_absent (a : char) (old new s : str) :
  a ∉ s -> replace_from (a :: old) new O s = s.
Proof.
  induction s as [|c s IH]; intros Hs; [done|].
  apply not_elem_of_cons in Hs as [Hne Hs].
  cbn [replace_from]. rewrite startswith_head_ne by done.
  by rewrite IH.
Qed.

(** Removing a prefix [old] from [old ++ s] when [s] cannot hold another
    occurrence leaves [s]. *)
Lemma replace_prefix (a : char) (old s : str) :
  a ∉ s -> replace ((a :: old) ++ s) (a :: old) [] = s.
Proof.
  intros Hs. unfold replace.
  change ((a :: old) ++ s) with (a :: (old ++ s)).
  cbn [replace_from].
  change (a :: old ++ s) with ((a :: old) ++ s).
  rewrite startswith_app. simpl. rewrite Nat.sub_0_r.
  rewrite replace_from_skip. by apply replace_from_absent.
Qed.

(** *** lines *)

Lemma lines_concat (s : str) : concat (lines s) = s.
Proof.
  induction s as [|c s IH]; simpl; [done|].
  destruct (c =? 10).
  - simpl. by rewrite IH.
  - destruct (lines s) as [|l ls]; simpl in *; by rewrite <- IH.
Qed.

Lemma lines_nil_inv (s : str) : lines s = [] -> s = [].
Proof.
  destruct s as [|c s]; simpl; [done|].
  destruct (c =? 10); [done|]. by destruct (lines s).
Qed.

(** A text that is empty or ends with a newline splits independently of
    what follows it. *)
Lemma lines_cons (c : char) (s : str) :
  lines (c :: s) =
  if c =? 10 then [c] :: lines s
  else match lines s with
       | [] => [[c]]
       | l :: ls => (c :: l) :: ls
       end.
Proof. done. Qed.

Lemma lines_app (t l : str) :
  newline_terminated t -> lines (t ++ l) = lines t ++ lines l.
Proof.
  induction t as [|c t IH]; intros Ht; [done|].
  destruct Ht as [Ht|Ht]; [done|].
  destruct t as [|d t].
  - simpl in Ht. injection Ht as ->. done.
  - rewrite last_cons_cons in Ht.
    specialize (IH (or_intror Ht)).
    change ((c :: d :: t) ++ l) with (c :: ((d :: t) ++ l)).
    rewrite (lines_cons c (d :: t)), (lines_cons c ((d :: t) ++ l)), IH.
    destruct (c =? 10); [done|].
    destruct (lines (d :: t)) as [|x xs] eqn:E; [|done].
    by apply lines_nil_inv in E.
Qed.

Lemma lines_one (l : str) : 10 ∉ l -> lines (l ++ [10]) = [l ++ [10]].
Proof.
  induction l as [|c l IH]; intros Hl; [done|].
  apply not_elem_of_cons in Hl as [Hne Hl].
  simpl. apply Z.eqb_neq in Hne. rewrite Z.eqb_sym in Hne.
  rewrite Hne. by rewrite IH.
Qed.

Lemma lines_one_open (l : str) : l <> [] -> 10 ∉ l -> lines l = [l].
Proof.
  induction l as [|c l IH]; intros Hnil Hl; [done|].
  apply not_elem_of_cons in Hl as [Hne Hl].
  rewrite lines_cons. apply Z.eqb_neq in Hne. rewrite Z.eqb_sym in Hne.
  rewrite Hne. destruct l as [|d l]; [done|].
  by rewrite IH.
Qed.

Lemma encode_utf8_app (a b : str) :
  encode_utf8 (a ++ b) =
  match encode_utf8 a, encode_utf8 b with
  | Some x, Some y => Some (x ++ y)
  | _, _ => None
  end.
Proof.
  induction a as [|c a IH]; simpl.
  - by destruct (encode_utf8 b).
  - rewrite IH.
    destruct (encode_char c), (encode_utf8 a), (encode_utf8 b); simpl; try done.
    by rewrite app_assoc.
Qed.

End PyFacts.

(** ** The digest as text *)

Section DigestFacts.
Import Py.

Lemma hex_digit_lower (n : Z) :
  0 <= n < 16 -> is_lower_hex (SHA256.hex_digit n) = true.
Proof.
  intros [H0 H16]. unfold SHA256.hex_digit, is_lower_hex.
  destruct (Z.ltb_spec n 10); apply orb_true_iff; [left|right];
    apply andb_true_iff; split; apply Z.leb_le; lia.
Qed.

Lemma nibble_lower (w : Z) :
  is_lower_hex (SHA256.hex_digit (Z.land w 15)) = true.
Proof.
  apply hex_digit_lower. change 15 with (Z.ones 4).
  rewrite Z.land_ones by lia. apply Z.mod_pos_bound. lia.
Qed.

Lemma hex8_lower (w : Z) :
  Forall (fun c => is_lower_hex c = true) (SHA256.hex8 w).
Proof. unfold SHA256.hex8. repeat constructor; apply nibble_lower. Qed.

Lemma hexdigest_length (data : bytes) :
  length (SHA256.hexdigest data) = 64%nat.
Proof. done. Qed.

Lemma hexdigest_lower (data : bytes) :
  Forall (fun c => is_lower_hex c = true) (SHA256.hexdigest data).
Proof.
  unfold SHA256.hexdigest, SHA256.hex_of_regs.
  repeat (apply Forall_app; split); apply hex8_lower.
Qed.

Lemma hexdigest_is_hex64 (data : bytes) :
  is_hex64 (SHA256.hexdigest data) = true.
Proof.
  unfold is_hex64. rewrite hexdigest_length.
  apply andb_true_intro. split; [done|].
  apply forallb_forall. intros c Hc.
  apply (proj1 (Forall_forall _ _) (hexdigest_lower data)).
  by apply list_elem_of_In.
Qed.

Lemma is_hex64_inv (h : str) :
  is_hex64 h = true ->
  h <> [] /\ Forall (fun c => is_lower_hex c = true) h.
Proof.
  unfold is_hex64. intros [Hlen Hall]%andb_prop. split.
  - intros ->. done.
  - apply Forall_forall. intros c Hc.
    apply (proj1 (forallb_forall _ _) Hall). by apply list_elem_of_In.
Qed.

Lemma lower_hex_range (c : char) :
  is_lower_hex c = true <-> 48 <= c <= 57 \/ 97 <= c <= 102.
Proof.
  unfold is_lower_hex.
  rewrite orb_true_iff, !andb_true_iff, !Z.leb_le. done.
Qed.

Lemma lower_hex_not_space (c : char) :
  is_lower_hex c = true -> isspace c = false.
Proof.
  rewrite lower_hex_range. intros Hc.
  apply not_true_is_false. unfold isspace.
  rewrite !orb_true_iff, !andb_true_iff, !Z.leb_le, !Z.eqb_eq. lia.
Qed.

Lemma lower_hex_absent (a : char) (h : str) :
  ~ (48 <= a <= 57 \/ 97 <= a <= 102) ->
  Forall (fun c => is_lower_hex c = true) h -> a ∉ h.
Proof.
  intros Ha Hh Hin. apply Ha, lower_hex_range.
  by apply (proj1 (Forall_forall _ _) Hh).
Qed.

End DigestFacts.

(** ** Edit detection *)

Section EditDetection.
Import Py Checksum.

Lemma is_ini_edited_file (fs : gmap string str) (path : string) (text : str) :
  fs !! path = Some text ->
  is_ini_edited path fs = (is_ini_edited_lines (lines text), fs).
Proof.
  intros H. unfold is_ini_edited, IO.bind, IO.read_lines, IO.lift.
  rewrite H. by destruct (is_ini_edited_lines (lines text)).
Qed.

Lemma is_ini_edited_missing (fs : gmap string str) (path : string) :
  fs !! path = None ->
  is_ini_edited path fs = (Raise FileNotFoundError, fs).
Proof.
  intros H. unfold is_ini_edited, IO.bind, IO.read_lines. by rewrite H.
Qed.

(** The check, read off the last line and the lines above it. *)
Lemma is_ini_edited_lines_snoc (above : list str) (last_line : str) :
  is_ini_edited_lines (above ++ [last_line]) =
  if startswith (strip last_line) checksum_prefix
  then match encode_utf8 (join above) with
       | Some b =>
           Ok (negb (str_eqb (SHA256.hexdigest b) (claimed_sha256 last_line)))
       | None => Raise UnicodeEncodeError
       end
  else Ok false.
Proof.
  unfold is_ini_edited_lines, last_item, but_last, claimed_sha256.
  rewrite last_snoc, removelast_last.
  destruct (startswith (strip last_line) checksum_prefix); cbn [negb]; [|done].
  cbv zeta. destruct (encode_utf8 (join above)) as [b|]; [|done].
  by destruct (str_eqb _ _).
Qed.

Lemma lines_split (text : str) (last_line : str) :
  last (lines text) = Some last_line ->
  lines text = but_last (lines text) ++ [last_line]
  /\ text = lines_above text ++ last_line.
Proof.
  intros H. apply last_Some in H as [above E].
  unfold lines_above, but_last, join. rewrite E, removelast_last. split; [done|].
  rewrite <- (lines_concat text) at 1. rewrite E, concat_app. simpl.
  by rewrite app_nil_r.
Qed.

Lemma encodable_above (text : str) (last_line : str) :
  last (lines text) = Some last_line ->
  encodable text -> encodable (lines_above text).
Proof.
  intros H [b Hb]. apply lines_split in H as [_ E]. rewrite E in Hb.
  rewrite encode_utf8_app in Hb. unfold encodable.
  destruct (encode_utf8 (lines_above text)); [by eexists|done].
Qed.

(** What [is_ini_edited] returns on a file with at least one line. *)
Lemma is_ini_edited_nonempty (fs : gmap string str) (path : string)
    (text last_line : str) :
  fs !! path = Some text ->
  last (lines text) = Some last_line ->
  is_ini_edited path fs =
  (if startswith (strip last_line) checksum_prefix
   then match encode_utf8 (lines_above text) with
        | Some b =>
            Ok (negb (str_eqb (SHA256.hexdigest b) (claimed_sha256 last_line)))
        | None => Raise UnicodeEncodeError
        end
   else Ok false, fs).
Proof.
  intros Hfs Hlast. rewrite (is_ini_edited_file _ _ _ Hfs).
  destruct (lines_split _ _ Hlast) as [E _]. rewrite E at 1.
  by rewrite is_ini_edited_lines_snoc.
Qed.

Lemma checksum_prefix_cons :
  checksum_prefix = 59 :: lit " SHA256 CHECKSUM: ".
Proof. done. Qed.

(** The line appended by [with_checksum] is read back as the digest it
    carries. *)
Lemma strip_stamp (h : str) :
  h <> [] -> Forall (fun c => is_lower_hex c = true) h ->
  strip (IniMaker.stamp h) = checksum_prefix ++ h.
Proof.
  intros Hne Hh. unfold IniMaker.stamp, IniMaker.nl, strip.
  fold checksum_prefix. rewrite checksum_prefix_cons.
  rewrite <- app_comm_cons, lstrip_head by done.
  rewrite app_comm_cons, app_assoc.
  rewrite rstrip_spaces by (by repeat constructor).
  destruct (decide (h = [])) as [|_]; [done|].
  destruct (exists_last Hne) as (h' & c & ->).
  rewrite app_assoc. apply rstrip_last, lower_hex_not_space.
  apply Forall_app in Hh as [_ Hc]. by inversion Hc.
Qed.

Lemma claimed_sha256_stamp (h : str) :
  h <> [] -> Forall (fun c => is_lower_hex c = true) h ->
  claimed_sha256 (IniMaker.stamp h) = h.
Proof.
  intros Hne Hh. unfold claimed_sha256. rewrite strip_stamp by done.
  rewrite checksum_prefix_cons. apply replace_prefix.
  apply lower_hex_absent; [lia|done].
Qed.

Lemma stamp_no_newline (h : str) :
  Forall (fun c => is_lower_hex c = true) h ->
  10 ∉ (lit "; SHA256 CHECKSUM: " ++ h).
Proof.
  intros Hh Hin. apply elem_of_app in Hin as [Hin|Hin].
  - vm_compute in Hin. repeat (apply elem_of_cons in Hin as [Hin|Hin]; [done|]).
    by apply elem_of_nil in Hin.
  - revert Hin. apply lower_hex_absent; [lia|done].
Qed.

Lemma lines_stamped (t h : str) :
  newline_terminated t ->
  Forall (fun c => is_lower_hex c = true) h ->
  lines (t ++ IniMaker.stamp h) = lines t ++ [IniMaker.stamp h].
Proof.
  intros Ht Hh. rewrite lines_app by done. f_equal.
  unfold IniMaker.stamp, IniMaker.nl. rewrite app_assoc.
  apply lines_one. by apply stamp_no_newline.
Qed.

End EditDetection.

(** ** The claims on edit detection *)

Section EditDetectionClaims.
Import Py Checksum.

(** C3, as amended. For every existing file with at least one line whose
    last line, once stripped of surrounding white space, does not start with
    the checksum prefix, [is_ini_edited] returns false and leaves the file
    system as it was. *)
Theorem fail_open_without_prefix (fs : gmap string str) (path : string)
    (text last_line : str) :
  fs !! path = Some text ->
  last (lines text) = Some last_line ->
  startswith (strip last_line) checksum_prefix = false ->
  is_ini_edited path fs = (Ok false, fs).
Proof.
  intros Hfs Hlast Hpre.
  rewrite (is_ini_edited_nonempty _ _ _ _ Hfs Hlast). by rewrite Hpre.
Qed.

Lemma fail_open_without_prefix_witness :
  let text := lit "[Constants]" ++ [10] in
  let fs : gmap string str := {[ "mod.ini"%string := text ]} in
  last (lines text) = Some text
  /\ startswith (strip text) checksum_prefix = false
  /\ is_ini_edited "mod.ini" fs = (Ok false, fs).
Proof.
  split; [reflexivity|]. split; [reflexivity|].
  apply (fail_open_without_prefix _ _ (lit "[Constants]" ++ [10])
           (lit "[Constants]" ++ [10])); reflexivity.
Defined.

(** C3 as stated fails twice. A last line that does not itself start with
    the prefix, but does so once stripped, is verified and here reported as
    edited; and a file without any line makes [is_ini_edited] raise. *)
Lemma fail_open_counterexample :
  let indented := lit "  ; SHA256 CHECKSUM: abc" ++ [10] in
  last (lines indented) = Some indented
  /\ startswith indented checksum_prefix = false
  /\ is_ini_edited "mod.ini" {[ "mod.ini"%string := indented ]}
     = (Ok true, {[ "mod.ini"%string := indented ]})
  /\ is_ini_edited "mod.ini" {[ "mod.ini"%string := [] ]}
     = (Raise IndexError, {[ "mod.ini"%string := [] ]}).
Proof. vm_compute. done. Qed.

(** C4, as amended. For every existing file with at least one line whose
    last line, once stripped of surrounding white space, starts with the
    checksum prefix, [is_ini_edited] returns true if and only if the SHA-256
    hex digest of the lines above the last one differs from the hash the
    last line claims: the stripped line with the prefix removed. *)
Theorem verification_contract (fs : gmap string str) (path : string)
    (text last_line : str) (b : bytes) :
  fs !! path = Some text ->
  last (lines text) = Some last_line ->
  startswith (strip last_line) checksum_prefix = true ->
  encode_utf8 (lines_above text) = Some b ->
  exists edited : bool,
    is_ini_edited path fs = (Ok edited, fs)
    /\ (edited = true <-> SHA256.hexdigest b <> claimed_sha256 last_line).
Proof.
  intros Hfs Hlast Hpre Hb.
  rewrite (is_ini_edited_nonempty _ _ _ _ Hfs Hlast), Hpre, Hb.
  eexists. split; [done|].
  rewrite negb_true_iff. apply str_eqb_neq.
Qed.

Lemma verification_contract_witness :
  let text := lit "[Constants]" ++ [10]
              ++ lit "; SHA256 CHECKSUM: 0123" ++ [10] in
  let fs : gmap string str := {[ "mod.ini"%string := text ]} in
  exists edited : bool,
    is_ini_edited "mod.ini" fs = (Ok edited, fs)
    /\ (edited = true <->
        SHA256.hexdigest (lit "[Constants]" ++ [10])
        <> claimed_sha256 (lit "; SHA256 CHECKSUM: 0123" ++ [10])).
Proof.
  apply (verification_contract _ _
           (lit "[Constants]" ++ [10] ++ lit "; SHA256 CHECKSUM: 0123" ++ [10])
           (lit "; SHA256 CHECKSUM: 0123" ++ [10])
           (lit "[Constants]" ++ [10])); reflexivity.
Defined.

(** C4 as stated fails on a last line that is the prefix followed by white
    space only: the line starts with the prefix, the digest of the (empty)
    text above it differs from whatever follows the prefix, and yet
    [is_ini_edited] returns false, because [strip] has removed the blank
    that ends the prefix. *)
Lemma verification_contract_counterexample :
  let bare := lit "; SHA256 CHECKSUM: " ++ [10] in
  let fs : gmap string str := {[ "mod.ini"%string := bare ]} in
  last (lines bare) = Some bare
  /\ startswith bare checksum_prefix = true
  /\ encode_utf8 (lines_above bare) = Some []
  /\ SHA256.hexdigest [] <> drop (length checksum_prefix) bare
  /\ SHA256.hexdigest [] <> claimed_sha256 bare
  /\ is_ini_edited "mod.ini" fs = (Ok false, fs).
Proof. vm_compute. repeat split; done. Qed.

(** C6, as amended. A last line that, once stripped, lacks the checksum
    prefix makes [is_ini_edited] return false; a last line that carries the
    prefix with a garbled hash value (anything but 64 lowercase hexadecimal
    digits) makes it return true: the file is reported as edited. *)
Theorem garbled_trailer (fs : gmap string str) (path : string)
    (text last_line : str) :
  fs !! path = Some text ->
  last (lines text) = Some last_line ->
  encodable text ->
  (startswith (strip last_line) checksum_prefix = false ->
   is_ini_edited path fs = (Ok false, fs))
  /\ (startswith (strip last_line) checksum_prefix = true ->
      is_hex64 (claimed_sha256 last_line) = false ->
      is_ini_edited path fs = (Ok true, fs)).
Proof.
  intros Hfs Hlast Henc.
  rewrite (is_ini_edited_nonempty _ _ _ _ Hfs Hlast).
  split; intros Hpre; rewrite Hpre; [done|].
  intros Hgarbled.
  destruct (encodable_above _ _ Hlast Henc) as [b Hb]. rewrite Hb.
  do 2 f_equal. apply negb_true_iff, str_eqb_neq. intros E.
  rewrite <- E, hexdigest_is_hex64 in Hgarbled. done.
Qed.

Lemma garbled_trailer_witness :
  let text := lit "[Constants]" ++ [10]
              ++ lit "; SHA256 CHECKSUM: not-a-hash" ++ [10] in
  let fs : gmap string str := {[ "mod.ini"%string := text ]} in
  is_hex64 (claimed_sha256 (lit "; SHA256 CHECKSUM: not-a-hash" ++ [10])) = false
  /\ is_ini_edited "mod.ini" fs = (Ok true, fs).
Proof.
  split; [reflexivity|].
  refine (proj2 (garbled_trailer _ _
           (lit "[Constants]" ++ [10]
            ++ lit "; SHA256 CHECKSUM: not-a-hash" ++ [10])
           (lit "; SHA256 CHECKSUM: not-a-hash" ++ [10]) _ _ _) _ _);
    try reflexivity.
  by eexists.
Defined.

(** C6 as stated fails: a last line with the right prefix and a garbled
    hash value is reported as edited, not as unmodified. *)
Lemma garbled_trailer_counterexample :
  let text := lit "; SHA256 CHECKSUM: zzzz" ++ [10] in
  let fs : gmap string str := {[ "mod.ini"%string := text ]} in
  last (lines text) = Some text
  /\ startswith text checksum_prefix = true
  /\ claimed_sha256 text = lit "zzzz"
  /\ is_ini_edited "mod.ini" fs = (Ok true, fs).
Proof. vm_compute. done. Qed.

(** C9. A file with zero lines makes [is_ini_edited] raise IndexError
    instead of returning a boolean, and it is the only file that does; with
    at least one line and no prefix on the stripped last line the result is
    false. *)
Theorem empty_file_raises (fs : gmap string str) (path : string) (text : str) :
  fs !! path = Some text ->
  (lines text = [] <-> is_ini_edited path fs = (Raise IndexError, fs))
  /\ (forall last_line, last (lines text) = Some last_line ->
      startswith (strip last_line) checksum_prefix = false ->
      is_ini_edited path fs = (Ok false, fs)).
Proof.
  intros Hfs. split.
  - rewrite (is_ini_edited_file _ _ _ Hfs). split.
    + by intros ->.
    + intros H. destruct (last (lines text)) as [l|] eqn:Hlast.
      * destruct (lines_split _ _ Hlast) as [E _]. rewrite E in H at 1.
        rewrite is_ini_edited_lines_snoc in H.
        destruct (startswith _ _); [|done].
        by destruct (encode_utf8 _).
      * by apply last_None in Hlast.
  - intros l Hlast Hpre.
    rewrite (is_ini_edited_nonempty _ _ _ _ Hfs Hlast). by rewrite Hpre.
Qed.

Lemma empty_file_raises_witness :
  let fs : gmap string str := {[ "mod.ini"%string := [] ]} in
  is_ini_edited "mod.ini" fs = (Raise IndexError, fs).
Proof.
  refine (proj1 (proj1 (empty_file_raises _ "mod.ini" [] _)) _); reflexivity.
Defined.

(** White space around the last line is stripped before anything is looked
    at: the check sees the bare line. *)
Lemma padding_ignored (above : list str) (ws1 x ws2 : str) :
  Forall (fun c => isspace c = true) ws1 ->
  Forall (fun c => isspace c = true) ws2 ->
  is_ini_edited_lines (above ++ [ws1 ++ x ++ ws2])
  = is_ini_edited_lines (above ++ [x]).
Proof.
  intros H1 H2. rewrite !is_ini_edited_lines_snoc. unfold claimed_sha256.
  by rewrite strip_padding.
Qed.

Lemma strip_trailer (h : str) :
  h <> [] -> Forall (fun c => is_lower_hex c = true) h ->
  strip (checksum_prefix ++ h) = checksum_prefix ++ h.
Proof.
  intros Hne Hh. transitivity (strip (IniMaker.stamp h));
    [|by apply strip_stamp].
  unfold IniMaker.stamp, IniMaker.nl. fold checksum_prefix.
  rewrite app_assoc. symmetry.
  apply (strip_padding [] (checksum_prefix ++ h) [10]); by repeat constructor.
Qed.

(** C10. A trailer with white space before and after it is still recognised
    and verified: when the last line of the file is the prefix and 64
    lowercase hexadecimal digits, surrounded by any white space,
    [is_ini_edited] returns true exactly when the digest of the lines above
    differs from those digits, which is the answer for the same lines ending
    with the trailer line as it is written by [with_checksum]. *)
Theorem padded_trailer (fs : gmap string str) (path : string)
    (text ws1 h ws2 : str) (b : bytes) :
  fs !! path = Some text ->
  last (lines text) = Some (ws1 ++ (checksum_prefix ++ h) ++ ws2) ->
  Forall (fun c => isspace c = true) ws1 ->
  Forall (fun c => isspace c = true) ws2 ->
  is_hex64 h = true ->
  encode_utf8 (lines_above text) = Some b ->
  is_ini_edited path fs = (Ok (negb (str_eqb (SHA256.hexdigest b) h)), fs)
  /\ is_ini_edited path fs
     = (is_ini_edited_lines (but_last (lines text) ++ [IniMaker.stamp h]), fs).
Proof.
  intros Hfs Hlast H1 H2 [Hne Hh]%is_hex64_inv Hb.
  assert (is_ini_edited path fs
          = (Ok (negb (str_eqb (SHA256.hexdigest b) h)), fs)) as E.
  { rewrite (is_ini_edited_nonempty _ _ _ _ Hfs Hlast).
    unfold claimed_sha256. rewrite strip_padding by done.
    rewrite strip_trailer, startswith_app, Hb by done.
    rewrite <- (strip_stamp h) by done.
    fold (claimed_sha256 (IniMaker.stamp h)).
    by rewrite claimed_sha256_stamp. }
  split; [done|]. rewrite E. f_equal.
  rewrite is_ini_edited_lines_snoc, strip_stamp, startswith_app by done.
  fold (lines_above text). rewrite Hb.
  by rewrite claimed_sha256_stamp.
Qed.

Lemma padded_trailer_witness :
  let above := lit "[Constants]" ++ [10] in
  let padded h := above ++ [32; 32] ++ (checksum_prefix ++ h) ++ [9; 10] in
  let right := padded (SHA256.hexdigest above) in
  let wrong := padded (SHA256.hexdigest []) in
  is_ini_edited "mod.ini" {[ "mod.ini"%string := right ]}
  = (Ok false, {[ "mod.ini"%string := right ]})
  /\ is_ini_edited "mod.ini" {[ "mod.ini"%string := wrong ]}
     = (Ok true, {[ "mod.ini"%string := wrong ]}).
Proof.
  split.
  - refine (eq_trans (proj1 (padded_trailer _ "mod.ini" _ [32; 32]
                               (SHA256.hexdigest (lit "[Constants]" ++ [10]))
                               [9; 10] (lit "[Constants]" ++ [10])
                               _ _ _ _ _ _)) _).
    + apply lookup_singleton_eq.
    + vm_compute. reflexivity.
    + repeat constructor.
    + repeat constructor.
    + vm_compute. reflexivity.
    + vm_compute. reflexivity.
    + vm_compute. reflexivity.
  - refine (eq_trans (proj1 (padded_trailer _ "mod.ini" _ [32; 32]
                               (SHA256.hexdigest [])
                               [9; 10] (lit "[Constants]" ++ [10])
                               _ _ _ _ _ _)) _).
    + apply lookup_singleton_eq.
    + vm_compute. reflexivity.
    + repeat constructor.
    + repeat constructor.
    + vm_compute. reflexivity.
    + vm_compute. reflexivity.
    + vm_compute. reflexivity.
Defined.

End EditDetectionClaims.

(** ** Signing *)

Section Signing.
Import Py Checksum TextMode.

Example universal_newlines_sample :
  universal_newlines (lit "a" ++ [13; 10] ++ lit "b" ++ [13] ++ lit "c"
                      ++ [10; 13; 13; 10])
  = lit "a" ++ [10] ++ lit "b" ++ [10] ++ lit "c" ++ [10; 10; 10].
Proof. reflexivity. Qed.

Example write_newlines_sample :
  write_newlines true (lit "a" ++ [10] ++ lit "b" ++ [10])
  = lit "a" ++ [13; 10] ++ lit "b" ++ [13; 10]
  /\ write_newlines false (lit "a" ++ [10]) = lit "a" ++ [10].
Proof. split; reflexivity. Qed.











Lemma with_checksum_encoded (t : str) (b : bytes) :
  encode_utf8 t = Some b ->
  IniMaker.with_checksum t = Ok (t ++ IniMaker.stamp (SHA256.hexdigest b)).
Proof. intros H. unfold IniMaker.with_checksum. by rewrite H. Qed.





(** Without the final newline the round trip is not guaranteed: after a
    text that ends with a blank, the stamp is found on the last line, but
    the digest it carries covers the blank, which the check counts as part
    of the last line. *)
Example roundtrip_needs_whole_lines :
  let t := lit "[Constants]" ++ [10; 32] in
  is_ini_edited_lines (lines (t ++ IniMaker.stamp (SHA256.hexdigest t)))
  = Ok true.
Proof. vm_compute. reflexivity. Qed.

(** C5, as amended. For every text that UTF-8 can encode, [with_checksum]
    returns the text unchanged followed by the prefix, the 64 lowercase
    hexadecimal digits of its SHA-256 digest and one newline, with no other
    newline in what is appended. When the text is empty or ends with a
    newline, the appended line is the last line of the result. *)
Theorem with_checksum_format (t : str) (b : bytes) :
  encode_utf8 t = Some b ->
  let h := SHA256.hexdigest b in
  IniMaker.with_checksum t = Ok (t ++ lit "; SHA256 CHECKSUM: " ++ h ++ [10])
  /\ is_hex64 h = true
  /\ (10 ∉ lit "; SHA256 CHECKSUM: " ++ h)
  /\ (newline_terminated t ->
      lines (t ++ lit "; SHA256 CHECKSUM: " ++ h ++ [10])
      = lines t ++ [lit "; SHA256 CHECKSUM: " ++ h ++ [10]]).
Proof.
  intros Hb h. split; [by apply with_checksum_encoded|].
  split; [apply hexdigest_is_hex64|].
  split; [apply stamp_no_newline, hexdigest_lower|].
  intros Ht. apply (lines_stamped t h Ht), hexdigest_lower.
Qed.

Lemma with_checksum_format_witness :
  let t := lit "[Constants]" ++ [10] in
  let h := SHA256.hexdigest t in
  IniMaker.with_checksum t = Ok (t ++ lit "; SHA256 CHECKSUM: " ++ h ++ [10])
  /\ is_hex64 h = true
  /\ (10 ∉ lit "; SHA256 CHECKSUM: " ++ h)
  /\ (newline_terminated t ->
      lines (t ++ lit "; SHA256 CHECKSUM: " ++ h ++ [10])
      = lines t ++ [lit "; SHA256 CHECKSUM: " ++ h ++ [10]]).
Proof.
  apply (with_checksum_format (lit "[Constants]" ++ [10])
           (lit "[Constants]" ++ [10])).
  reflexivity.
Defined.

(** C5 as stated fails on a text that does not end with a newline: what
    [with_checksum] appends then continues the last line of the text, and
    the last line of the result is not the checksum line. *)
Lemma with_checksum_format_counterexample :
  let t := lit "abc" in
  let appended := lit "; SHA256 CHECKSUM: " ++ SHA256.hexdigest t ++ [10] in
  IniMaker.with_checksum t = Ok (t ++ appended)
  /\ last (lines (t ++ appended)) = Some (t ++ appended)
  /\ last (lines (t ++ appended)) <> Some appended.
Proof. vm_compute. repeat split; done. Qed.




End Signing.

(** ** The builder *)

Section BuilderFacts.
Import Py IniBuilder.

#[local] Instance index_le_total : Total index_le.
Proof. intros p q. unfold index_le. lia. Qed.

#[local] Instance index_le_trans : Transitive index_le.
Proof. intros p q r. unfold index_le. lia. Qed.

Lemma update_group_indices (idx : nat) (f : Group -> Group)
    (gs : list (nat * Group)) :
  (update_group idx f gs).*1 = register idx gs.*1.
Proof.
  unfold register. induction gs as [|[i g] gs IH]; csimpl; [done|].
  destruct (Nat.eqb_spec i idx) as [->|Hne]; csimpl.
  - rewrite bool_decide_eq_true_2; [done|]. by left.
  - rewrite IH. destruct (bool_decide_reflect (idx ∈ gs.*1)) as [Hin|Hnin].
    + rewrite bool_decide_eq_true_2; [done|]. by right.
    + rewrite bool_decide_eq_false_2; [done|].
      intros [?|?]%elem_of_cons; congruence.
Qed.

Lemma indices_on_group (idx : nat) (f : Group -> Group) (b : IniBuilder) :
  indices (on_group idx f b) = register idx (indices b).
Proof. apply update_group_indices. Qed.




Lemma find_group_update_eq (idx : nat) (f : Group -> Group)
    (gs : list (nat * Group)) :
  find_group idx (update_group idx f gs)
  = Some (f (default empty_group (find_group idx gs))).
Proof.
  induction gs as [|[i g] gs IH]; simpl.
  - by rewrite Nat.eqb_refl.
  - destruct (Nat.eqb_spec i idx) as [->|Hne]; simpl.
    + by rewrite Nat.eqb_refl.
    + by apply Nat.eqb_neq in Hne as ->.
Qed.

Lemma find_group_update_ne (idx j : nat) (f : Group -> Group)
    (gs : list (nat * Group)) :
  j <> idx -> find_group j (update_group idx f gs) = find_group j gs.
Proof.
  intros Hj. induction gs as [|[i g] gs IH]; simpl.
  - apply not_eq_sym, Nat.eqb_neq in Hj. by rewrite Hj.
  - destruct (Nat.eqb_spec i idx) as [->|Hne]; simpl.
    + by apply not_eq_sym, Nat.eqb_neq in Hj as ->.
    + by rewrite IH.
Qed.



(** *** The order in which [build] visits the groups *)





(** *** What a sequence of calls leaves in the builder *)




(** *** The last group ends the document *)

Section Rendered.
Variable render_section : bool -> IniSection -> str.


End Rendered.

End BuilderFacts.

(** ** The layout IniMaker registers *)

Section IniMakerFacts.
Import Py IniBuilder IniMaker.
























End IniMakerFacts.

(** ** The claims on the document *)

Section DocumentClaims.
Import Py IniBuilder IniMaker Checksum.

#[local] Instance lt_antisymm : AntiSymm (=) lt.
Proof. intros x y. lia. Qed.

#[local] Existing Instance index_le_total.
#[local] Existing Instance index_le_trans.






(** C8, as amended. [with_checksum] works on the text it is given, and
    nothing else. [is_ini_edited] takes a path and reads that file itself:
    its result is that of the check run on the lines of the file, it raises
    when there is no such file, it depends on no other file, and it leaves
    the file system as it was. *)
Theorem edit_detection_reads_file (fs fs' : gmap string str) (path : string) :
  fs !! path = fs' !! path ->
  (is_ini_edited path fs).2 = fs
  /\ (is_ini_edited path fs).1 = (is_ini_edited path fs').1
  /\ (is_ini_edited path fs).1
     = match fs !! path with
       | Some text => is_ini_edited_lines (lines text)
       | None => Raise FileNotFoundError
       end.
Proof.
  intros E.
  assert (forall m : gmap string str,
            is_ini_edited path m
            = (match m !! path with
               | Some text => is_ini_edited_lines (lines text)
               | None => Raise FileNotFoundError
               end, m)) as H.
  { intros m. destruct (m !! path) as [text|] eqn:Hm.
    - by apply is_ini_edited_file.
    - by apply is_ini_edited_missing. }
  rewrite !H. simpl. by rewrite E.
Qed.

Lemma edit_detection_reads_file_witness :
  let text := lit "[Constants]" ++ [10] in
  let fs : gmap string str := {[ "mod.ini"%string := text ]} in
  let fs' : gmap string str := <[ "other.ini"%string := [] ]> fs in
  (is_ini_edited "mod.ini" fs).2 = fs
  /\ (is_ini_edited "mod.ini" fs).1 = (is_ini_edited "mod.ini" fs').1
  /\ (is_ini_edited "mod.ini" fs).1
     = match fs !! "mod.ini"%string with
       | Some text => is_ini_edited_lines (lines text)
       | None => Raise FileNotFoundError
       end.
Proof.
  apply (edit_detection_reads_file
           {[ "mod.ini"%string := lit "[Constants]" ++ [10] ]}
           (<[ "other.ini"%string := [] ]>
              {[ "mod.ini"%string := lit "[Constants]" ++ [10] ]})
           "mod.ini").
  vm_compute. reflexivity.
Defined.

(** C8 as stated fails for [is_ini_edited]: called twice with the same
    path, it answers differently when the file differs, and it raises when
    the file is missing. It reads the file system. *)
Lemma edit_detection_counterexample :
  let text := lit "[Constants]" ++ [10] in
  let signed := text ++ stamp (SHA256.hexdigest text) in
  let edited := lit "[Present]" ++ [10] ++ stamp (SHA256.hexdigest text) in
  (is_ini_edited "mod.ini" {[ "mod.ini"%string := signed ]}).1 = Ok false
  /\ (is_ini_edited "mod.ini" {[ "mod.ini"%string := edited ]}).1 = Ok true
  /\ (is_ini_edited "mod.ini" ∅).1 = Raise FileNotFoundError.
Proof. vm_compute. done. Qed.

End DocumentClaims.

(** * Further properties *)

(** ** The checksum stamp *)

Section StampFacts.
Import Py Checksum.

Lemma encode_char_scalar (c : char) :
  is_Some (encode_char c) <-> Unicode.is_scalar c = true.
Proof.
  unfold encode_char, Unicode.is_scalar.
  rewrite orb_true_iff, !andb_true_iff, !Z.leb_le, !Z.ltb_lt.
  destruct (Z.ltb_spec c 0); [split; [by intros [? ?]|lia]|].
  destruct (Z.ltb_spec c 128); [split; [lia|by eexists]|].
  destruct (Z.ltb_spec c 2048); [split; [lia|by eexists]|].
  destruct (Z.ltb_spec c 65536).
  - destruct (Z.leb_spec 55296 c); destruct (Z.leb_spec c 57343); simpl;
      (split; [intros Hs|intros Hs]);
      first [lia | by eexists | by destruct Hs].
  - destruct (Z.ltb_spec c 1114112); [split; [lia|by eexists]|].
    split; [by intros [? ?]|lia].
Qed.

Lemma encodable_scalar (t : str) :
  encodable t <-> Forall (fun c => Unicode.is_scalar c = true) t.
Proof.
  unfold encodable. induction t as [|c t IH]; simpl.
  - split; [by constructor|by eexists].
  - rewrite Forall_cons, <- IH, <- encode_char_scalar.
    destruct (encode_char c), (encode_utf8 t); split;
      try (by intros [? ?]); try (by intros [[? ?] [? ?]]).
Qed.




(** X1. The line [with_checksum] writes for a digest is one line, and
    [is_ini_edited] reads the same digest back from it. *)
Theorem stamp_read_back (h : str) :
  is_hex64 h = true ->
  lines (IniMaker.stamp h) = [IniMaker.stamp h]
  /\ startswith (strip (IniMaker.stamp h)) checksum_prefix = true
  /\ claimed_sha256 (IniMaker.stamp h) = h.
Proof.
  intros [Hne Hh]%is_hex64_inv. split; [|split].
  - unfold IniMaker.stamp, IniMaker.nl. rewrite app_assoc.
    apply lines_one. by apply stamp_no_newline.
  - rewrite strip_stamp by done. apply startswith_app.
  - by apply claimed_sha256_stamp.
Qed.

Lemma stamp_read_back_witness :
  let h := SHA256.hexdigest (lit "[Constants]" ++ [10]) in
  lines (IniMaker.stamp h) = [IniMaker.stamp h]
  /\ startswith (strip (IniMaker.stamp h)) checksum_prefix = true
  /\ claimed_sha256 (IniMaker.stamp h) = h.
Proof.
  apply (stamp_read_back (SHA256.hexdigest (lit "[Constants]" ++ [10]))).
  vm_compute. reflexivity.
Defined.



Lemma replace_from_pass (a : char) (old new h s : str) :
  a ∉ h ->
  replace_from (a :: old) new O (h ++ s)
  = h ++ replace_from (a :: old) new O s.
Proof.
  induction h as [|c h IH]; intros Hh; [done|].
  apply not_elem_of_cons in Hh as [Hne Hh].
  rewrite <- !app_comm_cons. cbn [replace_from].
  rewrite startswith_head_ne by done. by rewrite IH.
Qed.

Lemma replace_from_occurrence (a : char) (old new s : str) :
  replace_from (a :: old) new O ((a :: old) ++ s)
  = new ++ replace_from (a :: old) new O s.
Proof.
  change ((a :: old) ++ s) with (a :: (old ++ s)).
  cbn [replace_from].
  change (a :: old ++ s) with ((a :: old) ++ s).
  rewrite startswith_app. simpl. rewrite Nat.sub_0_r.
  by rewrite replace_from_skip.
Qed.

(** X3. [replace] removes every occurrence of the prefix, not only the
    leading one: a last line in which the prefix stands once more inside
    the right digest is accepted, and the file reports no edit. *)
Theorem repeated_prefix_accepted (fs : gmap string str) (path : string)
    (t : str) (b : bytes) (h1 h2 : str) :
  newline_terminated t ->
  encode_utf8 t = Some b ->
  SHA256.hexdigest b = h1 ++ h2 ->
  h2 <> [] ->
  fs !! path
  = Some (t ++ (checksum_prefix ++ h1 ++ checksum_prefix ++ h2) ++ [10]) ->
  is_ini_edited path fs = (Ok false, fs).
Proof.
  intros Ht Hb Hh Hne Hfs.
  pose proof (hexdigest_lower b) as Hlow. rewrite Hh in Hlow.
  apply Forall_app in Hlow as [Hl1 Hl2].
  assert (59 ∉ h1) as H1 by (apply lower_hex_absent; [lia|done]).
  assert (59 ∉ h2) as H2 by (apply lower_hex_absent; [lia|done]).
  assert (10 ∉ checksum_prefix ++ h1 ++ checksum_prefix ++ h2) as Hnl.
  { rewrite !elem_of_app. intros [Hin|[Hin|[Hin|Hin]]].
    - revert Hin. by apply (bool_decide_unpack _).
    - revert Hin. apply lower_hex_absent; [lia|done].
    - revert Hin. by apply (bool_decide_unpack _).
    - revert Hin. apply lower_hex_absent; [lia|done]. }
  rewrite (is_ini_edited_file _ _ _ Hfs). f_equal.
  rewrite lines_app, lines_one by done.
  rewrite is_ini_edited_lines_snoc. unfold join. rewrite lines_concat, Hb.
  assert (strip ((checksum_prefix ++ h1 ++ checksum_prefix ++ h2) ++ [10])
          = checksum_prefix ++ h1 ++ checksum_prefix ++ h2) as Hstrip.
  { unfold strip. rewrite checksum_prefix_cons at 1.
    rewrite <- !app_comm_cons, lstrip_head by done.
    rewrite !app_comm_cons. rewrite <- checksum_prefix_cons.
    rewrite rstrip_spaces by (by repeat constructor).
    destruct (exists_last Hne) as (h' & c & ->).
    rewrite !app_assoc. apply rstrip_last, lower_hex_not_space.
    apply Forall_app in Hl2 as [_ Hc]. by inversion Hc. }
  unfold claimed_sha256. rewrite Hstrip, startswith_app.
  assert (replace (checksum_prefix ++ h1 ++ checksum_prefix ++ h2)
                  checksum_prefix [] = h1 ++ h2) as ->.
  { rewrite checksum_prefix_cons.
    change (replace ?x (?a :: ?old) ?new) with (replace_from (a :: old) new O x).
    rewrite replace_from_occurrence, app_nil_l.
    rewrite replace_from_pass by done.
    rewrite replace_from_occurrence, app_nil_l.
    by rewrite replace_from_absent. }
  by rewrite Hh, str_eqb_refl.
Qed.

Lemma repeated_prefix_accepted_witness :
  let t := lit "[Constants]" ++ [10] in
  let h := SHA256.hexdigest t in
  let text := t ++ (checksum_prefix ++ take 10 h
                    ++ checksum_prefix ++ drop 10 h) ++ [10] in
  is_ini_edited "mod.ini" {[ "mod.ini"%string := text ]}
  = (Ok false, {[ "mod.ini"%string := text ]}).
Proof.
  apply (repeated_prefix_accepted _ "mod.ini" (lit "[Constants]" ++ [10])
           (lit "[Constants]" ++ [10])
           (take 10 (SHA256.hexdigest (lit "[Constants]" ++ [10])))
           (drop 10 (SHA256.hexdigest (lit "[Constants]" ++ [10])))).
  - right. reflexivity.
  - reflexivity.
  - vm_compute. reflexivity.
  - vm_compute. discriminate.
  - vm_compute. reflexivity.
Defined.

(** X4. [with_checksum] returns a signed text exactly when its input is
    made of Unicode scalar values, and raises UnicodeEncodeError exactly
    when the input holds a lone surrogate. *)
Theorem with_checksum_raises (t : str) :
  (Forall (fun c => Unicode.is_scalar c = true) t
   <-> exists s, IniMaker.with_checksum t = Ok s)
  /\ (Exists (fun c => Unicode.is_scalar c = false) t
      <-> IniMaker.with_checksum t = Raise UnicodeEncodeError).
Proof.
  rewrite <- encodable_scalar.
  assert (Exists (fun c => Unicode.is_scalar c = false) t <-> ~ encodable t)
    as ->.
  { rewrite encodable_scalar. split.
    - intros Hex Hall. apply Exists_exists in Hex as (c & Hc & Hf).
      apply (proj1 (Forall_forall _ _) Hall) in Hc. congruence.
    - intros Hn. apply not_Forall_Exists in Hn; [|intros c; apply _].
      eapply Exists_impl; [done|]. intros c. simpl.
      by destruct (Unicode.is_scalar c). }
  unfold encodable, IniMaker.with_checksum.
  destruct (encode_utf8 t) as [b|]; split; split;
    try done; try (by eexists); try (by intros [? ?]).
  intros H. destruct H. by eexists.
Qed.

(** X5. On an existing file that holds at least one character of
    well-formed text, [is_ini_edited] raises nothing: it answers true or
    false. *)
Theorem is_ini_edited_answers (fs : gmap string str) (path : string)
    (text : str) :
  fs !! path = Some text ->
  text <> [] ->
  Forall (fun c => Unicode.is_scalar c = true) text ->
  exists edited : bool, is_ini_edited path fs = (Ok edited, fs).
Proof.
  intros Hfs Hne Hsc. apply encodable_scalar in Hsc.
  destruct (last (lines text)) as [l|] eqn:Hlast.
  - rewrite (is_ini_edited_nonempty _ _ _ _ Hfs Hlast).
    destruct (startswith _ _); [|by eexists].
    destruct (encodable_above _ _ Hlast Hsc) as [b ->]. by eexists.
  - apply last_None, lines_nil_inv in Hlast. done.
Qed.

Lemma is_ini_edited_answers_witness :
  let fs : gmap string str :=
    {[ "mod.ini"%string := lit "; SHA256 CHECKSUM: 00" ]} in
  exists edited : bool, is_ini_edited "mod.ini" fs = (Ok edited, fs).
Proof.
  apply (is_ini_edited_answers _ "mod.ini" (lit "; SHA256 CHECKSUM: 00")).
  - reflexivity.
  - discriminate.
  - by apply (bool_decide_unpack _).
Defined.

End StampFacts.

(** ** Texture discovery *)

Section TextureFacts.
Import Py TextureCollector.

Variable lower : str -> str.
Variable isdecimal : char -> bool.

Lemma endswith_app (s suffix : str) : endswith (s ++ suffix) suffix = true.
Proof. unfold endswith. rewrite rev_app_distr. apply startswith_app. Qed.

Lemma dds_name_ends (texname : str) :
  endswith (dds_name texname) (lit ".dds") = true.
Proof.
  unfold dds_name. destruct (endswith texname (lit ".dds")) eqn:E; simpl.
  - done.
  - apply endswith_app.
Qed.

Lemma hex8_at_shape (s h : str) : hex8_at s = Some h -> hash_shape h.
Proof.
  unfold hex8_at, hash_shape.
  destruct (Nat.eqb_spec (length (take 8 s)) 8) as [Hlen|]; simpl; [|done].
  destruct (forallb is_lower_hex (take 8 s)) eqn:Hall; [|done].
  intros [= <-]. split; [done|]. apply Forall_forall. intros c Hc.
  apply (proj1 (forallb_forall _ _) Hall). by apply list_elem_of_In.
Qed.

Lemma new_format_at_shape (s h : str) :
  new_format_at s = Some h -> hash_shape h.
Proof.
  unfold new_format_at. destruct (startswith s (lit "t=")); [|done].
  apply hex8_at_shape.
Qed.

Lemma old_format_at_shape (s h : str) :
  old_format_at isdecimal s = Some h -> hash_shape h.
Proof.
  unfold old_format_at.
  destruct (startswith s (lit "component_")); [|done].
  destruct (drop 10 s) as [|d1 r1]; [done|].
  destruct (isdecimal d1 && startswith r1 (lit "-ps-t")); [|done].
  destruct (drop 5 r1) as [|d2 r2]; [done|].
  destruct (isdecimal d2 && startswith r2 (lit "-")); [|done].
  apply hex8_at_shape.
Qed.

Lemma findall_shape (at_start : str -> option str) (s h : str) :
  (forall x y, at_start x = Some y -> hash_shape y) ->
  h ∈ findall at_start s -> hash_shape h.
Proof.
  intros Hat Hin. unfold findall in Hin.
  apply list_elem_of_omap in Hin as (line & _ & Hlast).
  unfold last_on_line in Hlast. apply last_Some_elem_of in Hlast.
  apply list_elem_of_omap in Hlast as (x & _ & Hx). by apply (Hat x).
Qed.

Lemma texture_hash_of_shape (texname h : str) :
  texture_hash_of isdecimal texname = Some h -> hash_shape h.
Proof.
  unfold texture_hash_of. cbv zeta.
  destruct (negb _).
  - destruct (negb _); [done|].
    intros H. apply head_Some_elem_of in H.
    by apply (findall_shape _ _ _ old_format_at_shape H).
  - intros H. apply head_Some_elem_of in H.
    by apply (findall_shape _ _ _ new_format_at_shape H).
Qed.

Lemma visit_texture_of (d : list (str * Texture)) (e : DirEntry) :
  visit lower isdecimal d e
  = match texture_of lower isdecimal e with
    | Some v => dict_set (hash v) v d
    | None => d
    end.
Proof.
  unfold visit, texture_of. cbv zeta.
  destruct (endswith_any _ _); [|done].
  by destruct (texture_hash_of _ _).
Qed.

Lemma texture_of_inv (e : DirEntry) (v : Texture) :
  texture_of lower isdecimal e = Some v ->
  endswith_any (lower (entry_name e)) texture_suffixes = true
  /\ texture_hash_of isdecimal (lower (entry_name e)) = Some (hash v)
  /\ path v = entry_path e
  /\ filename v = dds_name (lower (entry_name e)).
Proof.
  unfold texture_of. cbv zeta.
  destruct (endswith_any _ _); [|done].
  destruct (texture_hash_of _ _) as [h|]; [|done].
  by intros [= <-].
Qed.

(** *** The dictionary *)

Lemma dict_set_keys (k : str) (v : Texture) (d : list (str * Texture)) :
  (dict_set k v d).*1 = if bool_decide (k ∈ d.*1) then d.*1 else d.*1 ++ [k].
Proof.
  induction d as [|[k0 v0] d IH]; csimpl; [done|].
  destruct (str_eqb k0 k) eqn:E; csimpl.
  - apply str_eqb_eq in E as ->.
    rewrite bool_decide_eq_true_2; [done|]. by left.
  - apply str_eqb_neq in E. rewrite IH.
    destruct (bool_decide_reflect (k ∈ d.*1)) as [Hin|Hnin].
    + rewrite bool_decide_eq_true_2; [done|]. by right.
    + rewrite bool_decide_eq_false_2; [done|].
      intros [?|?]%elem_of_cons; congruence.
Qed.

Lemma dict_set_NoDup (k : str) (v : Texture) (d : list (str * Texture)) :
  NoDup d.*1 -> NoDup (dict_set k v d).*1.
Proof.
  intros Hnd. rewrite dict_set_keys.
  destruct (bool_decide_reflect (k ∈ d.*1)) as [Hin|Hnin]; [done|].
  apply NoDup_app. split; [done|]. split; [|apply NoDup_singleton].
  intros x Hx ->%list_elem_of_singleton. done.
Qed.

Lemma dict_set_elem (k : str) (v : Texture) (d : list (str * Texture))
    (p : str * Texture) :
  p ∈ dict_set k v d -> p = (k, v) \/ p ∈ d.
Proof.
  induction d as [|[k0 v0] d IH]; simpl.
  - intros ->%list_elem_of_singleton. by left.
  - destruct (str_eqb k0 k) eqn:E.
    + apply str_eqb_eq in E as ->.
      intros [->|Hin]%elem_of_cons; [by left|]. right. by right.
    + intros [->|Hin]%elem_of_cons; [right; by left|].
      destruct (IH Hin) as [?|?]; [by left|]. right. by right.
Qed.

(** With distinct keys, each the hash of its texture, setting a key
    replaces the texture that has this hash or appends a new one. *)
Lemma dict_set_values (k : str) (v : Texture) (d : list (str * Texture)) :
  NoDup d.*1 ->
  Forall (fun p => hash p.2 = p.1) d ->
  (dict_set k v d).*2
  = if bool_decide (k ∈ d.*1)
    then (fun t => if bool_decide (hash t = k) then v else t) <$> d.*2
    else d.*2 ++ [v].
Proof.
  induction d as [|[k0 v0] d IH]; intros Hnd Hkeys; csimpl; [done|].
  csimpl in Hnd. apply NoDup_cons in Hnd as [Hnin Hnd].
  apply Forall_cons in Hkeys as [Hk0 Hkeys]. simpl in Hk0.
  destruct (str_eqb k0 k) eqn:E; csimpl.
  - apply str_eqb_eq in E as ->.
    rewrite bool_decide_eq_true_2 by (by left). csimpl.
    rewrite bool_decide_eq_true_2 by done. f_equal.
    clear IH. induction d as [|[k1 v1] d IH]; csimpl; [done|].
    apply Forall_cons in Hkeys as [Hk1 Hkeys]. simpl in Hk1.
    csimpl in Hnin. apply not_elem_of_cons in Hnin as [Hne Hnin].
    csimpl in Hnd. apply NoDup_cons in Hnd as [_ Hnd].
    rewrite bool_decide_eq_false_2 by congruence. f_equal. by apply IH.
  - apply str_eqb_neq in E. rewrite IH by done.
    destruct (bool_decide_reflect (k ∈ d.*1)) as [Hin|Hnin'].
    + rewrite bool_decide_eq_true_2 by (by right). csimpl.
      by rewrite bool_decide_eq_false_2 by congruence.
    + rewrite bool_decide_eq_false_2; [done|].
      intros [?|?]%elem_of_cons; congruence.
Qed.

(** *** What the loop keeps true of the dictionary *)

Lemma collected_snoc (listing : list DirEntry) (e : DirEntry) :
  collected lower isdecimal (listing ++ [e])
  = visit lower isdecimal (collected lower isdecimal listing) e.
Proof. unfold collected. by rewrite fold_left_app. Qed.

Lemma collected_invariant (listing : list DirEntry) :
  NoDup (collected lower isdecimal listing).*1
  /\ Forall (fun p => hash p.2 = p.1
                      /\ exists e, e ∈ listing
                                   /\ texture_of lower isdecimal e = Some p.2)
            (collected lower isdecimal listing).
Proof.
  induction listing as [|e listing IH] using rev_ind.
  - split; [apply NoDup_nil_2|constructor].
  - destruct IH as [Hnd Hall]. rewrite collected_snoc, visit_texture_of.
    assert (Forall (fun p => hash p.2 = p.1
                             /\ exists e0, e0 ∈ listing ++ [e]
                                /\ texture_of lower isdecimal e0 = Some p.2)
                   (collected lower isdecimal listing)) as Hall'.
    { eapply Forall_impl; [exact Hall|].
      intros p (Hk & e0 & He0 & Ht). split; [done|].
      exists e0. split; [|done]. apply elem_of_app. by left. }
    destruct (texture_of lower isdecimal e) as [v|] eqn:Hv; [|done].
    split; [by apply dict_set_NoDup|].
    apply Forall_forall. intros p [->|Hin]%dict_set_elem.
    + split; [done|]. exists e. split; [|done].
      apply elem_of_app. right. by apply list_elem_of_singleton.
    + by apply (proj1 (Forall_forall _ _) Hall').
Qed.

Lemma get_textures_elem (listing : list DirEntry) (t : Texture) :
  t ∈ get_textures lower isdecimal listing ->
  exists e, e ∈ listing /\ texture_of lower isdecimal e = Some t.
Proof.
  unfold get_textures. fold (collected lower isdecimal listing).
  intros ([k v] & -> & Hin)%list_elem_of_fmap.
  destruct (collected_invariant listing) as [_ Hall].
  by destruct (proj1 (Forall_forall _ _) Hall _ Hin) as [_ ?].
Qed.

Lemma collected_hashes (listing : list DirEntry) :
  hash <$> get_textures lower isdecimal listing
  = (collected lower isdecimal listing).*1.
Proof.
  unfold get_textures. fold (collected lower isdecimal listing).
  destruct (collected_invariant listing) as [_ Hall].
  induction Hall as [|[k v] d [Hk _] _ IH]; csimpl; [done|].
  simpl in Hk. by rewrite Hk, IH.
Qed.

(** X6. Every texture [get_textures] returns has a file name that ends
    with [.dds]. *)
Theorem get_textures_dds (listing : list DirEntry) (t : Texture) :
  t ∈ get_textures lower isdecimal listing ->
  endswith (filename t) (lit ".dds") = true.
Proof.
  intros (e & _ & He)%get_textures_elem.
  apply texture_of_inv in He as (_ & _ & _ & ->). apply dds_name_ends.
Qed.

(** X7. Every texture [get_textures] returns has a hash of eight
    characters of [0-9a-f]. *)
Theorem get_textures_hash (listing : list DirEntry) (t : Texture) :
  t ∈ get_textures lower isdecimal listing ->
  length (hash t) = 8%nat
  /\ Forall (fun c => is_lower_hex c = true) (hash t).
Proof.
  intros (e & _ & He)%get_textures_elem.
  apply texture_of_inv in He as (_ & Hh & _).
  by apply texture_hash_of_shape in Hh.
Qed.

(** X8. No two textures [get_textures] returns have the same hash. *)
Theorem get_textures_distinct (listing : list DirEntry) :
  NoDup (hash <$> get_textures lower isdecimal listing).
Proof.
  rewrite collected_hashes. apply collected_invariant.
Qed.

(** X9. Every texture [get_textures] returns stems from an entry of the
    directory whose lowered name ends with an accepted suffix and carries
    the hash; the texture has the path of that entry, and there are no more
    textures than entries. *)
Theorem get_textures_provenance (listing : list DirEntry) :
  (forall t, t ∈ get_textures lower isdecimal listing ->
     exists e, e ∈ listing
       /\ endswith_any (lower (entry_name e)) texture_suffixes = true
       /\ texture_hash_of isdecimal (lower (entry_name e)) = Some (hash t)
       /\ path t = entry_path e
       /\ filename t = dds_name (lower (entry_name e)))
  /\ (length (get_textures lower isdecimal listing) <= length listing)%nat.
Proof.
  split.
  - intros t (e & He & Ht)%get_textures_elem. exists e. split; [done|].
    by apply texture_of_inv.
  - unfold get_textures. rewrite length_fmap.
    fold (collected lower isdecimal listing).
    induction listing as [|e listing IH] using rev_ind; [done|].
    rewrite collected_snoc, visit_texture_of, length_app. simpl.
    destruct (texture_of lower isdecimal e) as [v|]; [|lia].
    assert (length (dict_set (hash v) v (collected lower isdecimal listing))
            <= S (length (collected lower isdecimal listing)))%nat; [|lia].
    rewrite <- (length_fmap fst), dict_set_keys.
    destruct (bool_decide _); rewrite ?length_app, !length_fmap; simpl; lia.
Qed.

(** X10. An entry the loop skips, because its lowered name has no accepted
    suffix or carries no hash, changes nothing, wherever it stands in the
    directory. *)
Theorem get_textures_skips (before after : list DirEntry) (e : DirEntry) :
  endswith_any (lower (entry_name e)) texture_suffixes = false
  \/ texture_hash_of isdecimal (lower (entry_name e)) = None ->
  get_textures lower isdecimal (before ++ e :: after)
  = get_textures lower isdecimal (before ++ after).
Proof.
  intros Hskip. unfold get_textures. rewrite !fold_left_app. simpl.
  assert (forall d, visit lower isdecimal d e = d) as ->; [|done].
  intros d. unfold visit. cbv zeta.
  destruct Hskip as [-> | ->]; [done|]. by destruct (endswith_any _ _).
Qed.

(** X11. An entry the loop accepts, coming last, replaces in place the
    texture that already has its hash, and is appended when no texture has
    it. *)
Theorem get_textures_last_wins (listing : list DirEntry) (e : DirEntry)
    (t : Texture) :
  texture_of lower isdecimal e = Some t ->
  get_textures lower isdecimal (listing ++ [e])
  = if bool_decide (hash t ∈ hash <$> get_textures lower isdecimal listing)
    then (fun t0 => if bool_decide (hash t0 = hash t) then t else t0)
           <$> get_textures lower isdecimal listing
    else get_textures lower isdecimal listing ++ [t].
Proof.
  intros Ht. rewrite collected_hashes. unfold get_textures.
  fold (collected lower isdecimal (listing ++ [e])).
  fold (collected lower isdecimal listing).
  rewrite collected_snoc, visit_texture_of, Ht.
  destruct (collected_invariant listing) as [Hnd Hall].
  apply dict_set_values; [done|].
  eapply Forall_impl; [exact Hall|]. by intros p [? _].
Qed.

(** *** The greedy pattern *)

Lemma split_newline_one (s : str) : 10 ∉ s -> split_newline s = [s].
Proof.
  induction s as [|c s IH]; intros Hs; [done|].
  apply not_elem_of_cons in Hs as [Hne Hs]. simpl.
  apply not_eq_sym, Z.eqb_neq in Hne. rewrite Hne. by rewrite IH.
Qed.

Lemma last_on_line_app (at_start : str -> option str) (pre x h : str) :
  last_on_line at_start x = Some h ->
  last_on_line at_start (pre ++ x) = Some h.
Proof.
  unfold last_on_line. intros Hx.
  induction pre as [|c pre IH]; [done|].
  change (tails ((c :: pre) ++ x))
    with ((c :: pre ++ x) :: tails (pre ++ x)).
  change (omap at_start ((c :: pre ++ x) :: tails (pre ++ x)))
    with (match at_start (c :: pre ++ x) with
          | Some y => y :: omap at_start (tails (pre ++ x))
          | None => omap at_start (tails (pre ++ x))
          end).
  destruct (at_start (c :: pre ++ x)); [|done].
  rewrite last_cons. by rewrite IH.
Qed.

Lemma hex8_at_app (h post : str) :
  hash_shape h -> hex8_at (h ++ post) = Some h.
Proof.
  intros [Hlen Hh]. unfold hex8_at.
  rewrite take_app_length' by done. rewrite Hlen. simpl.
  assert (forallb is_lower_hex h = true) as ->; [|done].
  apply forallb_forall. intros c Hc.
  apply (proj1 (Forall_forall _ _) Hh). by apply list_elem_of_In.
Qed.

(** X12. Both [.*] of the pattern are greedy: on a lowered name of one
    line, the hash is read after the last [t=] that eight characters of
    [0-9a-f] follow. *)
Theorem texture_hash_last_occurrence (pre h post : str) :
  10 ∉ pre ++ lit "t=" ++ h ++ post ->
  hash_shape h ->
  Forall (fun s => new_format_at s = None) (tails (lit "=" ++ h ++ post)) ->
  texture_hash_of isdecimal (pre ++ lit "t=" ++ h ++ post) = Some h.
Proof.
  intros Hnl Hh Hlater. unfold texture_hash_of. cbv zeta.
  assert (findall new_format_at (pre ++ lit "t=" ++ h ++ post) = [h]) as ->;
    [|done].
  unfold findall. rewrite split_newline_one by done.
  change (omap ?f [?x]) with (match f x with Some y => [y] | None => [] end).
  rewrite (last_on_line_app _ pre _ h); [done|].
  unfold last_on_line.
  change (tails (lit "t=" ++ h ++ post))
    with ((lit "t=" ++ h ++ post) :: tails (lit "=" ++ h ++ post)).
  change (omap ?f (?x :: ?l))
    with (match f x with Some y => y :: omap f l | None => omap f l end).
  assert (new_format_at (lit "t=" ++ h ++ post) = Some h) as ->.
  { unfold new_format_at. rewrite startswith_app.
    change (drop 2 (lit "t=" ++ h ++ post)) with (h ++ post).
    by apply hex8_at_app. }
  assert (omap new_format_at (tails (lit "=" ++ h ++ post)) = []) as ->; [|done].
  induction Hlater as [|s l Hs _ IH]; [done|].
  change (omap ?f (?x :: ?l))
    with (match f x with Some y => y :: omap f l | None => omap f l end).
  by rewrite Hs.
Qed.

End TextureFacts.

(** *** The theorems on the sample directory *)

Section TextureSamples.
Import Py TextureCollector.

Lemma get_textures_dds_witness :
  endswith (filename sample_texture) (lit ".dds") = true.
Proof.
  apply (get_textures_dds ascii_lower ascii_digit sample_listing).
  vm_compute. left.
Defined.

Lemma get_textures_hash_witness :
  length (hash sample_texture) = 8%nat
  /\ Forall (fun c => is_lower_hex c = true) (hash sample_texture).
Proof.
  apply (get_textures_hash ascii_lower ascii_digit sample_listing).
  vm_compute. left.
Defined.

Lemma get_textures_provenance_witness :
  exists e, e ∈ sample_listing
    /\ endswith_any (ascii_lower (entry_name e)) texture_suffixes = true
    /\ texture_hash_of ascii_digit (ascii_lower (entry_name e))
       = Some (hash sample_texture)
    /\ path sample_texture = entry_path e
    /\ filename sample_texture = dds_name (ascii_lower (entry_name e)).
Proof.
  apply (proj1 (get_textures_provenance ascii_lower ascii_digit sample_listing)).
  vm_compute. left.
Defined.

Lemma get_textures_skips_witness :
  get_textures ascii_lower ascii_digit sample_listing
  = get_textures ascii_lower ascii_digit (take 2 sample_listing).
Proof.
  rewrite <- (app_nil_r (take 2 sample_listing)).
  apply (get_textures_skips ascii_lower ascii_digit (take 2 sample_listing) []
           (mkDirEntry (lit "notes.txt") (lit "mod/notes.txt"))).
  left. vm_compute. reflexivity.
Defined.

Lemma get_textures_last_wins_witness :
  let again := mkDirEntry (lit "T=1a2b3c4d_v2.jpg") (lit "mod/T=1a2b3c4d_v2.jpg") in
  let t := mkTexture (lit "1a2b3c4d") (lit "mod/T=1a2b3c4d_v2.jpg")
                     (lit "t=1a2b3c4d_v2.dds") in
  get_textures ascii_lower ascii_digit (sample_listing ++ [again])
  = [t; mkTexture (lit "deadbeef") (lit "mod/component_0-ps-t1-deadbeef.dds")
                  (lit "component_0-ps-t1-deadbeef.dds")].
Proof.
  intros again t.
  rewrite (get_textures_last_wins ascii_lower ascii_digit sample_listing
             again t); [|vm_compute; reflexivity].
  vm_compute. reflexivity.
Defined.

Lemma texture_hash_last_occurrence_witness :
  texture_hash_of ascii_digit
    (lit "t=00000000 " ++ lit "t=" ++ lit "1a2b3c4d" ++ lit ".png")
  = Some (lit "1a2b3c4d").
Proof.
  apply (texture_hash_last_occurrence ascii_digit (lit "t=00000000 ")
           (lit "1a2b3c4d") (lit ".png")).
  - by apply (bool_decide_unpack _).
  - split; [reflexivity|]. by apply (bool_decide_unpack _).
  - vm_compute. repeat constructor.
Defined.

End TextureSamples.

(** ** The groups IniMaker fills *)

Section LayoutFacts.
Import Py IniBuilder IniMaker Layout.

Lemma update_group_compose (idx : nat) (f g : Group -> Group)
    (gs : list (nat * Group)) :
  update_group idx g (update_group idx f gs)
  = update_group idx (fun x => g (f x)) gs.
Proof.
  induction gs as [|[i x] gs IH]; simpl.
  - by rewrite Nat.eqb_refl.
  - destruct (Nat.eqb_spec i idx) as [->|Hne]; simpl.
    + by rewrite Nat.eqb_refl.
    + apply Nat.eqb_neq in Hne. by rewrite Hne, IH.
Qed.

Lemma on_group_compose (idx : nat) (f g : Group -> Group) (b : IniBuilder) :
  on_group idx g (on_group idx f b) = on_group idx (fun x => g (f x)) b.
Proof. unfold on_group. simpl. by rewrite update_group_compose. Qed.

Lemma adds_set_group_header (idx : nat) (text : str) :
  adds_sections idx (set_group_header idx text) [].
Proof.
  eexists. split; [done|]. intros g. simpl. by rewrite app_nil_r.
Qed.

Lemma adds_set_group_footer (idx : nat) (text : str) :
  adds_sections idx (set_group_footer idx text) [].
Proof.
  eexists. split; [done|]. intros g. simpl. by rewrite app_nil_r.
Qed.

Lemma adds_add_section (s : IniSection) (idx : nat) :
  adds_sections idx (add_section s idx) [s].
Proof. eexists. split; done. Qed.

Lemma adds_then (idx : nat) (m1 m2 : IniBuilder -> IniBuilder)
    (n1 n2 : list IniSection) :
  adds_sections idx m1 n1 -> adds_sections idx m2 n2 ->
  adds_sections idx (fun b => m2 (m1 b)) (n1 ++ n2).
Proof.
  intros (F1 & H1 & S1) (F2 & H2 & S2). exists (fun x => F2 (F1 x)). split.
  - intros b. by rewrite H1, H2, on_group_compose.
  - intros g. by rewrite S2, S1, app_assoc.
Qed.

Lemma adds_fold {A} (idx : nat) (F : IniBuilder -> A -> IniBuilder)
    (xs : list A) (m : IniBuilder -> IniBuilder)
    (n : list IniSection) (news : A -> list IniSection) :
  (forall x, adds_sections idx (fun b => F b x) (news x)) ->
  adds_sections idx m n ->
  adds_sections idx (fun b => fold_left F xs (m b))
                (n ++ concat (map news xs)).
Proof.
  intros HF. revert m n.
  induction xs as [|x xs IH]; intros m n Hm; simpl.
  - by rewrite app_nil_r.
  - rewrite app_assoc. apply (IH (fun b => F (m b) x)).
    by apply (adds_then idx m (fun b => F b x)).
Qed.

Ltac adds_step :=
  repeat first
    [ apply adds_add_section
    | apply adds_set_group_header
    | apply adds_set_group_footer
    | match goal with
      | |- adds_sections ?i (fun b => fold_left ?F ?xs (@?m b)) _ =>
          eapply (adds_fold i F xs m); [intros ?|]
      | |- adds_sections ?i (fun b => ?f (@?m b)) _ =>
          eapply (adds_then i m f)
      end ].

(** What a step that adds sections to one group does to the builder. *)
Lemma adds_sections_effect (idx : nat) (step : IniBuilder -> IniBuilder)
    (news : list IniSection) (b : IniBuilder) :
  adds_sections idx step news ->
  header (step b) = header b
  /\ skip_comments (step b) = skip_comments b
  /\ indices (step b) = register idx (indices b)
  /\ sections_of idx (step b) = sections_of idx b ++ news
  /\ (forall j, j <> idx ->
        find_group j (groups (step b)) = find_group j (groups b)).
Proof.
  intros (F & HF & HS). rewrite HF. split; [done|]. split; [done|].
  split; [apply indices_on_group|]. split.
  - unfold sections_of, on_group. cbn [groups].
    rewrite find_group_update_eq. simpl. apply HS.
  - intros j Hj. unfold on_group. cbn [groups].
    by apply find_group_update_ne.
Qed.

Lemma all_sections_update (idx : nat) (F : Group -> Group)
    (news : list IniSection) (gs : list (nat * Group)) :
  (forall g, group_sections (F g) = group_sections g ++ news) ->
  concat (map (fun p => group_sections p.2) (update_group idx F gs))
  ≡ₚ news ++ concat (map (fun p => group_sections p.2) gs).
Proof.
  intros HS. induction gs as [|[i g] gs IH]; simpl.
  - rewrite HS. simpl. by rewrite !app_nil_r.
  - destruct (Nat.eqb i idx); simpl.
    + rewrite HS. rewrite <- app_assoc.
      rewrite (Permutation_app_comm (group_sections g)).
      by rewrite <- !app_assoc, (Permutation_app_comm (group_sections g)).
    + rewrite IH. rewrite !app_assoc.
      by rewrite (Permutation_app_comm (group_sections g)).
Qed.

Lemma adds_sections_all (idx : nat) (step : IniBuilder -> IniBuilder)
    (news : list IniSection) (b : IniBuilder) :
  adds_sections idx step news ->
  all_sections (step b) ≡ₚ news ++ all_sections b.
Proof.
  intros (F & HF & HS). rewrite HF. unfold all_sections, on_group.
  cbn [groups]. by apply all_sections_update.
Qed.

Lemma Forall_concat_map {A B} (P : B -> Prop) (g : A -> list B)
    (xs : list A) :
  (forall x, Forall P (g x)) -> Forall P (concat (map g xs)).
Proof.
  intros Hg. induction xs as [|x xs IH]; simpl; [constructor|].
  apply Forall_app. by split.
Qed.

Ltac forall_news :=
  repeat first
    [ apply Forall_nil_2
    | apply Forall_app_2
    | (apply Forall_cons_2; [reflexivity|])
    | (apply Forall_concat_map; intros ?) ].

(** Each method adds sections to its own group only, and each section it
    adds carries a hash exactly when it is a TextureOverride. *)
Lemma makers_add (idx : nat) (make : IniMaker -> IniBuilder -> IniBuilder)
    (self : IniMaker) :
  (idx, make) ∈ group_makers ->
  exists news,
    adds_sections idx (make self) news
    /\ Forall (fun s => hash_matches_type s = true) news.
Proof.
  intros Hin. unfold group_makers in Hin.
  repeat (apply elem_of_cons in Hin as [[= -> ->]|Hin]);
    [..|by apply elem_of_nil in Hin]; eexists; (split; [|shelve]).
  - unfold make_mod_state_group. cbv zeta. adds_step.
  - unfold make_shape_keys_override_group. cbv zeta. adds_step.
  - unfold make_skeleton_override_group. cbv zeta. adds_step.
  - unfold make_draw_calls_group. cbv zeta. adds_step.
  - unfold make_mod_info_group. cbv zeta. adds_step.
  - unfold make_texture_resources_group. cbv zeta. adds_step.
  - unfold make_buffer_resources_group. cbv zeta. adds_step.
  - unfold make_shape_keys_resources_group. cbv zeta. adds_step.
  - unfold make_skeleton_resources_group. cbv zeta. adds_step.
  - unfold make_autogenerated_group. adds_step.
    Unshelve. all: forall_news.
Qed.

Lemma maker_keeps_other (j idx : nat)
    (make : IniMaker -> IniBuilder -> IniBuilder) (self : IniMaker)
    (b : IniBuilder) :
  (idx, make) ∈ group_makers -> j <> idx ->
  sections_of j (make self b) = sections_of j b.
Proof.
  intros Hin Hj. destruct (makers_add idx make self Hin) as (news & Hadd & _).
  destruct (adds_sections_effect idx _ news b Hadd) as (_ & _ & _ & _ & Hframe).
  unfold sections_of. by rewrite Hframe.
Qed.

Lemma maker_keeps_rule (idx : nat)
    (make : IniMaker -> IniBuilder -> IniBuilder) (self : IniMaker)
    (b : IniBuilder) :
  (idx, make) ∈ group_makers ->
  Forall (fun s => hash_matches_type s = true) (all_sections b) ->
  Forall (fun s => hash_matches_type s = true) (all_sections (make self b)).
Proof.
  intros Hin Hb. destruct (makers_add idx make self Hin) as (news & Hadd & Hn).
  rewrite (adds_sections_all idx _ news b Hadd). by apply Forall_app.
Qed.

Ltac maker_elem := unfold group_makers; by repeat constructor.

(** X13. Each [make_*_group] method works on its own group only: it
    leaves the leading header, the options and every other group as they
    are, uses no other index, and keeps the sections its group already has,
    in order, in front of the ones it adds. *)
Theorem maker_touches_own_group (idx : nat)
    (make : IniMaker -> IniBuilder -> IniBuilder) (self : IniMaker)
    (b : IniBuilder) (j : nat) :
  (idx, make) ∈ group_makers ->
  j <> idx ->
  header (make self b) = header b
  /\ skip_comments (make self b) = skip_comments b
  /\ indices (make self b) = register idx (indices b)
  /\ find_group j (groups (make self b)) = find_group j (groups b)
  /\ exists news, sections_of idx (make self b) = sections_of idx b ++ news.
Proof.
  intros Hin Hj. destruct (makers_add idx make self Hin) as (news & Hadd & _).
  destruct (adds_sections_effect idx _ news b Hadd)
    as (H1 & H2 & H3 & H4 & H5).
  repeat split; try done; [by apply H5|by exists news].
Qed.

Lemma maker_touches_own_group_witness :
  let b := make_mod_state_group Sample.maker (IniBuilder.new false) in
  let b' := make_texture_resources_group Sample.maker b in
  header b' = header b
  /\ skip_comments b' = skip_comments b
  /\ indices b' = register 3 (indices b)
  /\ find_group 0 (groups b') = find_group 0 (groups b)
  /\ exists news, sections_of 3 b' = sections_of 3 b ++ news.
Proof.
  apply (maker_touches_own_group 3 make_texture_resources_group Sample.maker
           (make_mod_state_group Sample.maker (IniBuilder.new false)) 0).
  - maker_elem.
  - lia.
Defined.

(** X14. Every section IniMaker registers carries a hash exactly when it
    is a TextureOverride. *)
Theorem sections_hash_rule (self : IniMaker) (s : IniSection) :
  s ∈ all_sections (post_init self) ->
  (section_type s = TextureOverride <-> is_Some (hash s)).
Proof.
  assert (Forall (fun s => hash_matches_type s = true)
                 (all_sections (post_init self))) as Hall.
  { unfold post_init. cbv zeta.
    apply (maker_keeps_rule 8 make_autogenerated_group); [maker_elem|].
    apply (maker_keeps_rule 8 make_skeleton_resources_group); [maker_elem|].
    destruct (0 <? custom_vertex_count (shapekeys self)).
    - apply (maker_keeps_rule 7 make_shape_keys_resources_group); [maker_elem|].
      apply (maker_keeps_rule 6 make_buffer_resources_group); [maker_elem|].
      apply (maker_keeps_rule 3 make_texture_resources_group); [maker_elem|].
      apply (maker_keeps_rule 1 make_mod_info_group); [maker_elem|].
      apply (maker_keeps_rule 2 make_draw_calls_group); [maker_elem|].
      apply (maker_keeps_rule 5 make_skeleton_override_group); [maker_elem|].
      apply (maker_keeps_rule 4 make_shape_keys_override_group); [maker_elem|].
      apply (maker_keeps_rule 0 make_mod_state_group); [maker_elem|].
      constructor.
    - apply (maker_keeps_rule 6 make_buffer_resources_group); [maker_elem|].
      apply (maker_keeps_rule 3 make_texture_resources_group); [maker_elem|].
      apply (maker_keeps_rule 1 make_mod_info_group); [maker_elem|].
      apply (maker_keeps_rule 2 make_draw_calls_group); [maker_elem|].
      apply (maker_keeps_rule 5 make_skeleton_override_group); [maker_elem|].
      apply (maker_keeps_rule 0 make_mod_state_group); [maker_elem|].
      constructor. }
  intros Hin. apply (proj1 (Forall_forall _ _) Hall) in Hin.
  unfold hash_matches_type in Hin.
  destruct (section_type s), (hash s); split; intros H; try done;
    try (by eexists); by destruct H.
Qed.

Lemma sections_hash_rule_witness :
  let s := mkSection None (lit "Texture0") TextureOverride (Some (lit "deadbeef")) in
  section_type s = TextureOverride <-> is_Some (hash s).
Proof.
  apply (sections_hash_rule Sample.maker).
  vm_compute. do 24 right. left.
Defined.

(** *** The groups filled from the collected data *)

Lemma concat_map_singleton {A B} (f : A -> B) (xs : list A) :
  concat (map (fun x => [f x]) xs) = f <$> xs.
Proof. induction xs as [|x xs IH]; csimpl; [done|]. by rewrite IH. Qed.

Lemma texture_maker_adds (self : IniMaker) :
  adds_sections 3 (make_texture_resources_group self)
    (concat (map texture_sections (enumerate (textures self)))).
Proof.
  assert (exists news,
            adds_sections 3 (make_texture_resources_group self) news
            /\ news = concat (map texture_sections (enumerate (textures self))))
    as (news & H & ->); [|done].
  eexists. split.
  - unfold make_texture_resources_group. cbv zeta. adds_step.
  - reflexivity.
Qed.

Lemma buffer_maker_adds (self : IniMaker) :
  adds_sections 6 (make_buffer_resources_group self)
    (buffer_section <$> buffers self).
Proof.
  assert (exists news,
            adds_sections 6 (make_buffer_resources_group self) news
            /\ news = buffer_section <$> buffers self)
    as (news & H & ->); [|done].
  eexists. split.
  - unfold make_buffer_resources_group. cbv zeta. adds_step.
  - rewrite app_nil_l. apply concat_map_singleton.
Qed.

Lemma draw_calls_maker_adds (self : IniMaker) :
  exists shared replace_textures,
    adds_sections 2 (make_draw_calls_group self)
      ([shared; replace_textures]
       ++ (component_section self <$> enumerate (components (mesh_object self)))).
Proof.
  assert (exists news shared replace_textures,
            adds_sections 2 (make_draw_calls_group self) news
            /\ news = [shared; replace_textures]
                      ++ (component_section self
                            <$> enumerate (components (mesh_object self))))
    as (news & s1 & s2 & H & ->); [|by exists s1, s2].
  eexists. eexists. eexists. split.
  - unfold make_draw_calls_group. cbv zeta. adds_step.
  - rewrite concat_map_singleton. reflexivity.
Qed.

Lemma maker_adds_own (idx : nat) (step : IniBuilder -> IniBuilder)
    (news : list IniSection) (b : IniBuilder) :
  adds_sections idx step news ->
  sections_of idx (step b) = sections_of idx b ++ news.
Proof.
  intros H. by destruct (adds_sections_effect idx step news b H)
    as (_ & _ & _ & ? & _).
Qed.

Ltac other_maker k mk :=
  rewrite (maker_keeps_other _ k mk) by first [maker_elem | lia].

(** X15. The groups filled from the collected data hold one turn of their
    loop per item, in the order of the items: group 3 a Resource and a
    TextureOverride section per texture, numbered from 0; group 6 one
    Resource section per buffer; group 2, after its two fixed sections, one
    TextureOverride section per component, numbered from 0. *)
Theorem data_driven_groups (self : IniMaker) :
  sections_of 3 (post_init self)
  = concat (map texture_sections (enumerate (textures self)))
  /\ sections_of 6 (post_init self) = buffer_section <$> buffers self
  /\ drop 2 (sections_of 2 (post_init self))
     = component_section self <$> enumerate (components (mesh_object self)).
Proof.
  destruct (draw_calls_maker_adds self) as (s1 & s2 & Hdraw).
  unfold post_init. cbv zeta.
  destruct (0 <? custom_vertex_count (shapekeys self)); split; [|split| |split].
  - other_maker 8%nat make_autogenerated_group.
    other_maker 8%nat make_skeleton_resources_group.
    other_maker 7%nat make_shape_keys_resources_group.
    other_maker 6%nat make_buffer_resources_group.
    rewrite (maker_adds_own _ _ _ _ (texture_maker_adds self)).
    other_maker 1%nat make_mod_info_group.
    other_maker 2%nat make_draw_calls_group.
    other_maker 5%nat make_skeleton_override_group.
    other_maker 4%nat make_shape_keys_override_group.
    other_maker 0%nat make_mod_state_group.
    done.
  - other_maker 8%nat make_autogenerated_group.
    other_maker 8%nat make_skeleton_resources_group.
    other_maker 7%nat make_shape_keys_resources_group.
    rewrite (maker_adds_own _ _ _ _ (buffer_maker_adds self)).
    other_maker 3%nat make_texture_resources_group.
    other_maker 1%nat make_mod_info_group.
    other_maker 2%nat make_draw_calls_group.
    other_maker 5%nat make_skeleton_override_group.
    other_maker 4%nat make_shape_keys_override_group.
    other_maker 0%nat make_mod_state_group.
    done.
  - other_maker 8%nat make_autogenerated_group.
    other_maker 8%nat make_skeleton_resources_group.
    other_maker 7%nat make_shape_keys_resources_group.
    other_maker 6%nat make_buffer_resources_group.
    other_maker 3%nat make_texture_resources_group.
    other_maker 1%nat make_mod_info_group.
    rewrite (maker_adds_own _ _ _ _ Hdraw).
    other_maker 5%nat make_skeleton_override_group.
    other_maker 4%nat make_shape_keys_override_group.
    other_maker 0%nat make_mod_state_group.
    done.
  - other_maker 8%nat make_autogenerated_group.
    other_maker 8%nat make_skeleton_resources_group.
    other_maker 6%nat make_buffer_resources_group.
    rewrite (maker_adds_own _ _ _ _ (texture_maker_adds self)).
    other_maker 1%nat make_mod_info_group.
    other_maker 2%nat make_draw_calls_group.
    other_maker 5%nat make_skeleton_override_group.
    other_maker 0%nat make_mod_state_group.
    done.
  - other_maker 8%nat make_autogenerated_group.
    other_maker 8%nat make_skeleton_resources_group.
    rewrite (maker_adds_own _ _ _ _ (buffer_maker_adds self)).
    other_maker 3%nat make_texture_resources_group.
    other_maker 1%nat make_mod_info_group.
    other_maker 2%nat make_draw_calls_group.
    other_maker 5%nat make_skeleton_override_group.
    other_maker 0%nat make_mod_state_group.
    done.
  - other_maker 8%nat make_autogenerated_group.
    other_maker 8%nat make_skeleton_resources_group.
    other_maker 6%nat make_buffer_resources_group.
    other_maker 3%nat make_texture_resources_group.
    other_maker 1%nat make_mod_info_group.
    rewrite (maker_adds_own _ _ _ _ Hdraw).
    other_maker 5%nat make_skeleton_override_group.
    other_maker 0%nat make_mod_state_group.
    done.
Qed.

(** *** Titles *)

Lemma lit_cons (a : ascii) (x : string) :
  lit (String a x) = Z.of_N (N_of_ascii a) :: lit x.
Proof. done. Qed.

Lemma lit_inj (x y : string) : lit x = lit y -> x = y.
Proof.
  revert y. induction x as [|a x IH]; intros [|c y]; try done.
  rewrite !lit_cons. intros [= Hac Hxy]. f_equal; [|by apply IH].
  apply N2Z.inj in Hac.
  by rewrite <- (ascii_N_embedding a), <- (ascii_N_embedding c), Hac.
Qed.

Lemma to_uint_nonnil (n : nat) : Nat.to_uint n <> Decimal.Nil.
Proof.
  rewrite <- (DecimalNat.Unsigned.of_to n) at 1.
  rewrite DecimalNat.Unsigned.to_of. apply DecimalFacts.unorm_nonnil.
Qed.

Lemma str_of_nat_inj (n m : nat) : str_of_nat n = str_of_nat m -> n = m.
Proof.
  unfold str_of_nat. intros H%lit_inj.
  apply DecimalNat.Unsigned.to_uint_inj.
  assert (NilZero.uint_of_string (NilZero.string_of_uint (Nat.to_uint n))
          = NilZero.uint_of_string (NilZero.string_of_uint (Nat.to_uint m)))
    as E by (by rewrite H).
  rewrite !NilZero.usu in E by apply to_uint_nonnil. by injection E.
Qed.

Lemma decimal_nil_or_not (d : Decimal.uint) :
  d = Decimal.Nil \/ d <> Decimal.Nil.
Proof. destruct d; [by left|by right..]. Qed.

Lemma decimal_last (d : Decimal.uint) :
  d <> Decimal.Nil ->
  exists c, last (lit (NilEmpty.string_of_uint d)) = Some c /\ 48 <= c <= 57.
Proof.
  induction d as [|d IH|d IH|d IH|d IH|d IH|d IH|d IH|d IH|d IH|d IH];
    intros Hne; [done|..];
    (destruct (decimal_nil_or_not d) as [->|Hd];
     [ eexists; split; [reflexivity|vm_compute; split; intros ?; discriminate]
     | destruct (IH Hd) as (c & Hc & Hr); exists c; split; [|done];
       simpl NilEmpty.string_of_uint; rewrite lit_cons, last_cons, Hc; done ]).
Qed.

Lemma str_of_nat_last (n : nat) :
  exists c, last (str_of_nat n) = Some c /\ 48 <= c <= 57.
Proof.
  unfold str_of_nat. pose proof (to_uint_nonnil n) as Hne.
  destruct (decimal_last _ Hne) as (c & Hc & Hr). exists c. split; [|done].
  rewrite <- Hc. by destruct (Nat.to_uint n).
Qed.

Lemma texture_like_texture (i : nat) :
  texture_like (lit "Texture" ++ str_of_nat i) = true.
Proof.
  unfold texture_like. rewrite startswith_app.
  destruct (str_of_nat_last i) as (c & Hc & Hr).
  rewrite last_app, Hc. simpl.
  apply andb_true_iff. split; apply Z.leb_le; lia.
Qed.

Lemma texture_like_buffer (bn : str) :
  texture_like (bn ++ lit "Buffer") = false.
Proof.
  unfold texture_like. rewrite last_app. apply andb_false_r.
Qed.

Lemma title_family_component (i : nat) :
  title_family (component_title i) = 1%nat.
Proof.
  unfold title_family, component_title. cbn [fst snd].
  by rewrite startswith_app.
Qed.

Lemma title_family_texture (i : nat) :
  Forall (fun k => title_family k = 2%nat) (texture_titles i).
Proof.
  unfold texture_titles, title_family. repeat constructor; cbn [fst snd].
  - by rewrite texture_like_texture.
  - change (startswith (lit "Texture" ++ str_of_nat i) (lit "Component"))
      with false.
    by rewrite texture_like_texture.
Qed.

Lemma title_family_buffer (bn : str) :
  title_family (buffer_title bn) = 3%nat.
Proof.
  unfold title_family, buffer_title. cbn [fst snd].
  by rewrite texture_like_buffer, endswith_app.
Qed.

(** *** Telling titles apart *)

Lemma NoDup_by_family {A} (fam : A -> nat) (l : list A) :
  (forall x, x ∈ l -> NoDup (filter (fun y => fam y = fam x) l)) ->
  NoDup l.
Proof.
  induction l as [|x l IH]; intros H; [constructor|].
  apply NoDup_cons. split.
  - intros Hx. specialize (H x (ltac:(by left))).
    rewrite filter_cons_True in H by done.
    apply NoDup_cons in H as [Hnin _]. apply Hnin.
    by apply list_elem_of_filter.
  - apply IH. intros y Hy. specialize (H y (ltac:(by right))).
    rewrite filter_cons in H. destruct (decide (fam x = fam y)); [|done].
    by apply NoDup_cons in H as [_ ?].
Qed.

Lemma filter_family {A} (fam : A -> nat) (c c' : nat) (l : list A) :
  Forall (fun k => fam k = c') l ->
  filter (fun y => fam y = c) l = if decide (c' = c) then l else [].
Proof.
  intros Hl. induction Hl as [|x l Hx _ IH]; [by destruct (decide _)|].
  rewrite filter_cons, IH, Hx. by destruct (decide (c' = c)).
Qed.

Lemma title_family_range (k : SectionType * str) : (title_family k < 4)%nat.
Proof.
  unfold title_family.
  destruct (k.1); repeat (match goal with |- context [if ?x then _ else _] =>
                                    destruct x end); lia.
Qed.

Lemma component_titles_NoDup (n : nat) :
  NoDup (component_title <$> seq 0 n).
Proof.
  apply NoDup_fmap_2; [|apply NoDup_seq].
  intros i j [= H]. by apply str_of_nat_inj.
Qed.

Lemma buffer_titles_NoDup (bs : list str) :
  NoDup bs -> NoDup (buffer_title <$> bs).
Proof.
  apply NoDup_fmap_2. intros x y [= H]. by apply app_inv_tail in H.
Qed.

Lemma texture_titles_elem (k : SectionType * str) (l : list nat) :
  k ∈ concat (map texture_titles l) ->
  exists i, i ∈ l /\ k.2 = lit "Texture" ++ str_of_nat i.
Proof.
  induction l as [|x l IH]; simpl; [by intros ?%elem_of_nil|].
  rewrite !elem_of_cons. intros [->|[->|Hin]].
  - exists x. split; [by left|done].
  - exists x. split; [by left|done].
  - destruct (IH Hin) as (i & Hi & Hk). exists i. split; [by right|done].
Qed.

Lemma texture_titles_NoDup (l : list nat) :
  NoDup l -> NoDup (concat (map texture_titles l)).
Proof.
  induction 1 as [|x l Hx Hl IH]; simpl; [constructor|].
  assert (forall t, (t, lit "Texture" ++ str_of_nat x)
                    ∉ concat (map texture_titles l)) as Hfresh.
  { intros t (i & Hi & Hk)%texture_titles_elem. cbn [snd] in Hk.
    apply app_inv_head, str_of_nat_inj in Hk. by subst. }
  apply NoDup_cons. split.
  - rewrite elem_of_cons. intros [?|?]; [done|]. by apply (Hfresh Resource).
  - apply NoDup_cons. split; [apply Hfresh|done].
Qed.

Lemma enumerate_fst {A} (xs : list A) :
  (enumerate xs).*1 = seq 0 (length xs).
Proof.
  unfold enumerate. generalize 0%nat.
  induction xs as [|x xs IH]; intros a; csimpl; [done|]. by rewrite IH.
Qed.

(** *** The titles each method registers *)

Lemma titles_step (idx : nat) (step : IniBuilder -> IniBuilder)
    (news : list IniSection) (b : IniBuilder) :
  adds_sections idx step news ->
  title_key <$> all_sections (step b)
  ≡ₚ (title_key <$> news) ++ (title_key <$> all_sections b).
Proof.
  intros H. by rewrite (adds_sections_all idx step news b H), fmap_app.
Qed.

Ltac fixed_titles :=
  eexists; split; [cbv zeta; adds_step | reflexivity].

Lemma mod_state_registers (self : IniMaker) :
  exists news, adds_sections 0 (make_mod_state_group self) news
               /\ title_key <$> news = mod_state_titles.
Proof. unfold make_mod_state_group. fixed_titles. Qed.

Lemma mod_info_registers (self : IniMaker) :
  exists news, adds_sections 1 (make_mod_info_group self) news
               /\ title_key <$> news = mod_info_titles.
Proof. unfold make_mod_info_group. fixed_titles. Qed.

Lemma shape_keys_override_registers (self : IniMaker) :
  exists news, adds_sections 4 (make_shape_keys_override_group self) news
               /\ title_key <$> news = shape_keys_override_titles.
Proof. unfold make_shape_keys_override_group. fixed_titles. Qed.

Lemma skeleton_override_registers (self : IniMaker) :
  exists news, adds_sections 5 (make_skeleton_override_group self) news
               /\ title_key <$> news = skeleton_override_titles.
Proof. unfold make_skeleton_override_group. fixed_titles. Qed.

Lemma shape_keys_resources_registers (self : IniMaker) :
  exists news, adds_sections 7 (make_shape_keys_resources_group self) news
               /\ title_key <$> news = shape_keys_resources_titles.
Proof. unfold make_shape_keys_resources_group. fixed_titles. Qed.

Lemma skeleton_resources_registers (self : IniMaker) :
  exists news, adds_sections 8 (make_skeleton_resources_group self) news
               /\ title_key <$> news = skeleton_resources_titles.
Proof. unfold make_skeleton_resources_group. fixed_titles. Qed.

Lemma autogenerated_registers (self : IniMaker) :
  adds_sections 8 (make_autogenerated_group self) [].
Proof. unfold make_autogenerated_group. adds_step. Qed.

Lemma draw_calls_registers (self : IniMaker) :
  exists news,
    adds_sections 2 (make_draw_calls_group self) news
    /\ title_key <$> news
       = draw_calls_titles
         ++ (component_title <$> seq 0 (length (components (mesh_object self)))).
Proof.
  eexists. split.
  - unfold make_draw_calls_group. cbv zeta. adds_step.
  - rewrite fmap_app, concat_map_singleton, <- list_fmap_compose.
    rewrite <- enumerate_fst, <- list_fmap_compose. reflexivity.
Qed.

Lemma texture_registers (self : IniMaker) :
  title_key <$> concat (map texture_sections (enumerate (textures self)))
  = concat (map texture_titles (seq 0 (length (textures self)))).
Proof.
  rewrite <- enumerate_fst.
  induction (enumerate (textures self)) as [|it l IH]; csimpl; [done|].
  by rewrite IH.
Qed.

Lemma buffer_registers (self : IniMaker) :
  title_key <$> (buffer_section <$> buffers self)
  = buffer_title <$> buffers self.
Proof. by rewrite <- list_fmap_compose. Qed.

Lemma post_init_titles (self : IniMaker) :
  title_key <$> all_sections (post_init self) ≡ₚ registered_titles self.
Proof.
  destruct (mod_state_registers self) as (n0 & H0 & T0).
  destruct (mod_info_registers self) as (n1 & H1 & T1).
  destruct (draw_calls_registers self) as (n2 & H2 & T2).
  destruct (shape_keys_override_registers self) as (n4 & H4 & T4).
  destruct (skeleton_override_registers self) as (n5 & H5 & T5).
  destruct (shape_keys_resources_registers self) as (n7 & H7 & T7).
  destruct (skeleton_resources_registers self) as (n8 & H8 & T8).
  unfold post_init, registered_titles. cbv zeta.
  rewrite (titles_step 8 _ _ _ (autogenerated_registers self)).
  rewrite (titles_step 8 _ _ _ H8), T8.
  destruct (0 <? custom_vertex_count (shapekeys self)).
  - rewrite (titles_step 7 _ _ _ H7), T7.
    rewrite (titles_step 6 _ _ _ (buffer_maker_adds self)), buffer_registers.
    rewrite (titles_step 3 _ _ _ (texture_maker_adds self)), texture_registers.
    rewrite (titles_step 1 _ _ _ H1), T1.
    rewrite (titles_step 2 _ _ _ H2), T2.
    rewrite (titles_step 5 _ _ _ H5), T5.
    rewrite (titles_step 4 _ _ _ H4), T4.
    rewrite (titles_step 0 _ _ _ H0), T0.
    change (all_sections _) with (@nil IniSection).
    by rewrite fmap_nil, app_nil_r, !app_nil_l, <- !app_assoc.
  - rewrite (titles_step 6 _ _ _ (buffer_maker_adds self)), buffer_registers.
    rewrite (titles_step 3 _ _ _ (texture_maker_adds self)), texture_registers.
    rewrite (titles_step 1 _ _ _ H1), T1.
    rewrite (titles_step 2 _ _ _ H2), T2.
    rewrite (titles_step 5 _ _ _ H5), T5.
    rewrite (titles_step 0 _ _ _ H0), T0.
    change (all_sections _) with (@nil IniSection).
    by rewrite fmap_nil, app_nil_r, !app_nil_l, <- !app_assoc.
Qed.

Lemma component_titles_family (n : nat) :
  Forall (fun k => title_family k = 1%nat) (component_title <$> seq 0 n).
Proof.
  apply Forall_fmap, Forall_forall. intros i _. apply title_family_component.
Qed.

Lemma texture_titles_family (n : nat) :
  Forall (fun k => title_family k = 2%nat)
         (concat (map texture_titles (seq 0 n))).
Proof. apply Forall_concat_map, title_family_texture. Qed.

Lemma buffer_titles_family (bs : list str) :
  Forall (fun k => title_family k = 3%nat) (buffer_title <$> bs).
Proof.
  apply Forall_fmap, Forall_forall. intros bn _. apply title_family_buffer.
Qed.

Ltac filter_blocks :=
  rewrite ?filter_app;
  rewrite ?(filter_family title_family _ 0 skeleton_resources_titles)
    by repeat constructor;
  rewrite ?(filter_family title_family _ 0 shape_keys_resources_titles)
    by repeat constructor;
  rewrite ?(filter_family title_family _ 0 mod_info_titles)
    by repeat constructor;
  rewrite ?(filter_family title_family _ 0 draw_calls_titles)
    by repeat constructor;
  rewrite ?(filter_family title_family _ 0 skeleton_override_titles)
    by repeat constructor;
  rewrite ?(filter_family title_family _ 0 shape_keys_override_titles)
    by repeat constructor;
  rewrite ?(filter_family title_family _ 0 mod_state_titles)
    by repeat constructor;
  rewrite ?(filter_family title_family _ 0 []) by constructor;
  rewrite ?(filter_family title_family _ 1 (component_title <$> _))
    by apply component_titles_family;
  rewrite ?(filter_family title_family _ 2 (concat (map texture_titles _)))
    by apply texture_titles_family;
  rewrite ?(filter_family title_family _ 3 (buffer_title <$> _))
    by apply buffer_titles_family;
  repeat (case_decide; try (exfalso; lia));
  rewrite ?app_nil_l, ?app_nil_r.

Lemma registered_titles_NoDup (self : IniMaker) :
  NoDup (buffers self) -> NoDup (registered_titles self).
Proof.
  intros Hbuf. apply (NoDup_by_family title_family). intros x _.
  pose proof (title_family_range x) as Hr.
  unfold registered_titles. cbv zeta.
  destruct (title_family x) as [|[|[|[|c]]]]; [..|lia];
    destruct (0 <? custom_vertex_count (shapekeys self)); filter_blocks.
  - by apply (bool_decide_unpack _).
  - by apply (bool_decide_unpack _).
  - apply component_titles_NoDup.
  - apply component_titles_NoDup.
  - apply texture_titles_NoDup, NoDup_seq.
  - apply texture_titles_NoDup, NoDup_seq.
  - by apply buffer_titles_NoDup.
  - by apply buffer_titles_NoDup.
Qed.

(** X16. When the buffers have distinct names, no two sections IniMaker
    registers have the same kind and name; the kinds and names are those
    of [registered_titles]. *)
Theorem section_titles_distinct (self : IniMaker) :
  NoDup (buffers self) ->
  title_key <$> all_sections (post_init self) ≡ₚ registered_titles self
  /\ NoDup (title_key <$> all_sections (post_init self)).
Proof.
  intros Hbuf. split; [apply post_init_titles|].
  rewrite post_init_titles. by apply registered_titles_NoDup.
Qed.

Lemma section_titles_distinct_witness :
  NoDup (title_key <$> all_sections (post_init Sample.maker)).
Proof.
  apply (section_titles_distinct Sample.maker).
  by apply (bool_decide_unpack _).
Defined.

End LayoutFacts.
